(** * Jeopardy board: data model, serializer, session state

    A shallow embedding of [jeopardy1.py]: the dataclasses of the board, the
    JSON serializer ([serialize_board], [deserialize_board]), the editor and
    game intents that act on Streamlit's session state, and the scoreboard
    helpers.

    Conventions.
    - A Python [str] is a [string]; its characters are read as code points
      below 256.  A Python [int] is a [Z].
    - A Python exception is a value of [exn]; code that can raise returns a
      [result].
    - [json.dumps], [json.loads], [bytes.decode] and [int] applied to a [str]
      are library functions: they are Section variables, and nothing is
      assumed about them except where a statement says so.
    - JSON numbers with a fraction or an exponent (Python [float]) are outside
      the model. *)

From Stdlib Require Import ZArith Lia Ascii.
From stdpp Require Import base option list sorting gmap sets strings pretty countable.

Set Warnings "-register-all".

#[local] Open Scope Z_scope.

(** ** Python values carried by a JSON document *)

(** What [json.loads] returns and what [dataclasses.asdict] builds: [None],
    [bool], [int], [str], [list], and [dict] with [str] keys.  A [dict] is
    kept as its bindings in insertion order. *)
Inductive pyval : Type :=
| PyNone
| PyBool (b : bool)
| PyInt (n : Z)
| PyStr (s : string)
| PyList (l : list pyval)
| PyDict (kvs : list (string * pyval)).

(** The exceptions the modelled code can raise. *)
Inductive exn : Type :=
| KeyError (key : string)
| TypeError
| AttributeError
| ValueError
| JSONDecodeError
| UnicodeDecodeError.

Inductive result (A : Type) : Type :=
| Ok (a : A)
| Raise (e : exn).
Arguments Ok {A} a.
Arguments Raise {A} e.

(** Sequencing: an exception ends the computation. *)
Definition bind {A B} (m : result A) (f : A → result B) : result B :=
  match m with Ok a => f a | Raise e => Raise e end.

Notation "'let!' x ':=' m 'in' k" := (bind m (fun x => k))
  (at level 10, x name, m at level 100, k at level 200, only parsing).


(** A list comprehension [[f x for x in xs]]: elements are converted left to
    right and the first exception ends the comprehension. *)
Fixpoint comprehension {A B} (f : A → result B) (xs : list A) : result (list B) :=
  match xs with
  | [] => Ok []
  | x :: xs' => let! y := f x in let! ys := comprehension f xs' in Ok (y :: ys)
  end.

(** *** Dictionaries *)

(** [d[k]] on the bindings of a dict; when a document repeats a key,
    [json.loads] keeps the last binding. *)
Fixpoint dict_lookup (k : string) (kvs : list (string * pyval)) : option pyval :=
  match kvs with
  | [] => None
  | (k', v) :: rest =>
      match dict_lookup k rest with
      | Some v' => Some v'
      | None => if String.eqb k' k then Some v else None
      end
  end.

(** The keys of a dict, each once, in the order of first insertion. *)
Definition dict_keys (kvs : list (string * pyval)) : list string :=
  remove_dups (kvs.*1).

(** [v[k]] for a [str] key [k]. *)
Definition py_getitem (v : pyval) (k : string) : result pyval :=
  match v with
  | PyDict kvs =>
      match dict_lookup k kvs with
      | Some x => Ok x
      | None => Raise (KeyError k)
      end
  | _ => Raise TypeError
  end.

(** [v.get(k, dflt)]: only a dict has the method. *)
Definition py_get (v : pyval) (k : string) (dflt : pyval) : result pyval :=
  match v with
  | PyDict kvs => Ok (default dflt (dict_lookup k kvs))
  | _ => Raise AttributeError
  end.

(** [for x in v]: a list yields its elements, a dict its keys, a str its
    characters as one-character strings; nothing else is iterable. *)
Definition py_iter (v : pyval) : result (list pyval) :=
  match v with
  | PyList l => Ok l
  | PyDict kvs => Ok (PyStr <$> dict_keys kvs)
  | PyStr s => Ok ((λ c, PyStr (String c EmptyString)) <$> String.list_ascii_of_string s)
  | _ => Raise TypeError
  end.

(** *** Equality and countability

    Needed to keep Python values in finite sets. *)
Lemma pyval_ind_nested (P : pyval → Prop) :
  P PyNone → (∀ b, P (PyBool b)) → (∀ n, P (PyInt n)) → (∀ s, P (PyStr s)) →
  (∀ l, Forall P l → P (PyList l)) →
  (∀ kvs, Forall (λ kv, P kv.2) kvs → P (PyDict kvs)) →
  ∀ v, P v.
Proof.
  intros HN HB HI HS HL HD.
  fix IH 1. intros [ | b | n | s | l | kvs ].
  - exact HN.
  - apply HB.
  - apply HI.
  - apply HS.
  - apply HL. induction l as [ | x l IHl ]; constructor; [apply IH | exact IHl].
  - apply HD. induction kvs as [ | [k x] kvs IHk ]; constructor; [apply IH | exact IHk].
Qed.

Fixpoint pyval_encode (v : pyval) : gen_tree (bool + Z + string) :=
  match v with
  | PyNone => GenNode 0 []
  | PyBool b => GenLeaf (inl (inl b))
  | PyInt n => GenLeaf (inl (inr n))
  | PyStr s => GenLeaf (inr s)
  | PyList l => GenNode 1 (pyval_encode <$> l)
  | PyDict kvs =>
      GenNode 2 ((λ kv, GenNode 3 [GenLeaf (inr kv.1); pyval_encode kv.2]) <$> kvs)
  end.

Fixpoint pyval_decode (t : gen_tree (bool + Z + string)) : pyval :=
  match t with
  | GenLeaf (inl (inl b)) => PyBool b
  | GenLeaf (inl (inr n)) => PyInt n
  | GenLeaf (inr s) => PyStr s
  | GenNode 1 ts => PyList (pyval_decode <$> ts)
  | GenNode 2 ts =>
      PyDict ((λ t', match t' with
                     | GenNode _ [GenLeaf (inr k); tv] => (k, pyval_decode tv)
                     | _ => ("", PyNone)
                     end) <$> ts)
  | _ => PyNone
  end.

Lemma pyval_decode_encode v : pyval_decode (pyval_encode v) = v.
Proof.
  induction v as [ | | | | l IH | kvs IH ] using pyval_ind_nested; simpl; auto.
  - f_equal. rewrite <- list_fmap_compose.
    induction IH as [ | x l Hx _ IHl ]; [done | ].
    rewrite fmap_cons. f_equal; [exact Hx | exact IHl].
  - f_equal. rewrite <- list_fmap_compose.
    induction IH as [ | [k x] kvs Hx _ IHk ]; [done | ].
    rewrite fmap_cons. f_equal; [simpl in *; by rewrite Hx | exact IHk].
Qed.

#[global] Instance pyval_eq_dec : EqDecision pyval.
Proof.
  intros x y. destruct (decide (pyval_encode x = pyval_encode y)) as [E | NE].
  - left. rewrite <- (pyval_decode_encode x), <- (pyval_decode_encode y). by rewrite E.
  - right. intros ->. by apply NE.
Defined.

#[global] Instance pyval_countable : Countable pyval.
Proof. exact (inj_countable' pyval_encode pyval_decode pyval_decode_encode). Defined.

(** ** Data model *)

(** The four dataclasses.  Python does not enforce the annotations, so the
    records are parametric in what the [str] fields ([S]) and the
    [Optional[str]] fields ([O]) hold: [string] and [option string] for a
    board that follows the annotations, [pyval] for a board as
    [deserialize_board] builds it from an arbitrary document.  The [int]
    fields are always integers: every path that writes them applies [int]. *)
Section Dataclasses.
Variables S O : Type.

Record MediaItem : Type := mkMediaItem {
  kind : S;            (* 'image' | 'video' | 'audio' *)
  source : S;          (* 'upload' | 'url' *)
  filename : O;
  mime : O;
  b64 : O;             (* base64-encoded bytes when source = 'upload' *)
  url : O              (* when source = 'url' *)
}.

Record Question : Type := mkQuestion {
  question_id : S;
  points : Z;
  prompt : S;
  answer : S;
  media : list MediaItem;
  timer_seconds : Z
}.

Record Category : Type := mkCategory {
  category_id : S;
  name : S;
  questions : list Question
}.

Record Board : Type := mkBoard {
  title : S;
  categories : list Category
}.

End Dataclasses.

Arguments mkMediaItem {S O}.
Arguments kind {S O}.
Arguments source {S O}.
Arguments filename {S O}.
Arguments mime {S O}.
Arguments b64 {S O}.
Arguments url {S O}.
Arguments mkQuestion {S O}.
Arguments question_id {S O}.
Arguments points {S O}.
Arguments prompt {S O}.
Arguments answer {S O}.
Arguments media {S O}.
Arguments timer_seconds {S O}.
Arguments mkCategory {S O}.
Arguments category_id {S O}.
Arguments name {S O}.
Arguments questions {S O}.
Arguments mkBoard {S O}.
Arguments title {S O}.
Arguments categories {S O}.

(** Boards whose fields follow the annotations ([str], [Optional[str]]). *)
Abbreviation StrMediaItem := (MediaItem string (option string)).
Abbreviation StrQuestion := (Question string (option string)).
Abbreviation StrCategory := (Category string (option string)).
Abbreviation StrBoard := (Board string (option string)).

(** Boards whose fields hold whatever a document put there. *)
Abbreviation PyMediaItem := (MediaItem pyval pyval).
Abbreviation PyQuestion := (Question pyval pyval).
Abbreviation PyCategory := (Category pyval pyval).
Abbreviation PyBoard := (Board pyval pyval).

(** The Python value of an annotated field. *)
Definition py_optional (o : option string) : pyval :=
  match o with Some s => PyStr s | None => PyNone end.

Definition media_value (m : StrMediaItem) : PyMediaItem :=
  mkMediaItem (PyStr (kind m)) (PyStr (source m)) (py_optional (filename m))
    (py_optional (mime m)) (py_optional (b64 m)) (py_optional (url m)).

Definition question_value (q : StrQuestion) : PyQuestion :=
  mkQuestion (PyStr (question_id q)) (points q) (PyStr (prompt q))
    (PyStr (answer q)) (media_value <$> media q) (timer_seconds q).

Definition category_value (c : StrCategory) : PyCategory :=
  mkCategory (PyStr (category_id c)) (PyStr (name c))
    (question_value <$> questions c).

Definition board_value (b : StrBoard) : PyBoard :=
  mkBoard (PyStr (title b)) (category_value <$> categories b).

(** [new_board()] *)
Definition new_board : StrBoard := mkBoard "Jeopardy!" [].

(** ** Serializer *)

(** [dataclasses.asdict]: every dataclass becomes a dict of its fields in
    declaration order, every list a list of converted elements. *)
Definition asdict_media (m : PyMediaItem) : pyval :=
  PyDict [("kind", kind m); ("source", source m); ("filename", filename m);
          ("mime", mime m); ("b64", b64 m); ("url", url m)].

Definition asdict_question (q : PyQuestion) : pyval :=
  PyDict [("id", question_id q); ("points", PyInt (points q));
          ("prompt", prompt q); ("answer", answer q);
          ("media", PyList (asdict_media <$> media q));
          ("timer_seconds", PyInt (timer_seconds q))].

Definition asdict_category (c : PyCategory) : pyval :=
  PyDict [("id", category_id c); ("name", name c);
          ("questions", PyList (asdict_question <$> questions c))].

Definition asdict (b : PyBoard) : pyval :=
  PyDict [("title", title b);
          ("categories", PyList (asdict_category <$> categories b))].

Section Serializer.

(** [json.dumps(v, indent=2)] *)
Variable json_dumps : pyval → string.
(** [json.loads(s)]; [None] stands for [JSONDecodeError]. *)
Variable json_loads : string → option pyval.
(** [int(s)] for a [str]; [None] stands for [ValueError]. *)
Variable int_of_str : string → option Z.

(** [int(v)] *)
Definition py_int (v : pyval) : result Z :=
  match v with
  | PyInt n => Ok n
  | PyBool b => Ok (if b then 1 else 0)
  | PyStr s =>
      match int_of_str s with
      | Some n => Ok n
      | None => Raise ValueError
      end
  | PyNone | PyList _ | PyDict _ => Raise TypeError
  end.

Definition serialize_board (board : PyBoard) : string :=
  json_dumps (asdict board).

(** The keyword arguments of each constructor call are evaluated in the order
    they are written, so the first failing one decides the exception. *)
Definition to_media (m : pyval) : result PyMediaItem :=
  let! k := py_getitem m "kind" in
  let! s := py_getitem m "source" in
  let! f := py_get m "filename" PyNone in
  let! t := py_get m "mime" PyNone in
  let! b := py_get m "b64" PyNone in
  let! u := py_get m "url" PyNone in
  Ok (mkMediaItem k s f t b u).

Definition to_q (q : pyval) : result PyQuestion :=
  let! i := py_getitem q "id" in
  let! p0 := py_getitem q "points" in
  let! p := py_int p0 in
  let! pr := py_getitem q "prompt" in
  let! a := py_getitem q "answer" in
  let! ms0 := py_get q "media" (PyList []) in
  let! ms1 := py_iter ms0 in
  let! ms := comprehension to_media ms1 in
  let! t0 := py_get q "timer_seconds" (PyInt 30) in
  let! t := py_int t0 in
  Ok (mkQuestion i p pr a ms t).

Definition to_cat (c : pyval) : result PyCategory :=
  let! i := py_getitem c "id" in
  let! n := py_getitem c "name" in
  let! qs0 := py_get c "questions" (PyList []) in
  let! qs1 := py_iter qs0 in
  let! qs := comprehension to_q qs1 in
  Ok (mkCategory i n qs).

(** The body of [deserialize_board] after [raw = json.loads(s)]. *)
Definition board_of_raw (raw : pyval) : result PyBoard :=
  let! t := py_get raw "title" (PyStr "Jeopardy!") in
  let! cs0 := py_get raw "categories" (PyList []) in
  let! cs1 := py_iter cs0 in
  let! cs := comprehension to_cat cs1 in
  Ok (mkBoard t cs).

Definition deserialize_board (s : string) : result PyBoard :=
  match json_loads s with
  | Some raw => board_of_raw raw
  | None => Raise JSONDecodeError
  end.

End Serializer.

(** ** Session state *)

(** The keys of [st.session_state] that [ensure_state] creates.  [used_qids]
    is a Python set, [scores] and [team_colors] are dicts keyed by team
    name. *)
Record State (S O : Type) `{Countable S} : Type := mkState {
  board : Board S O;
  used_qids : gset S;
  active_qid : option S;
  reveal_answer : bool;
  scores : gmap string Z;
  team_colors : gmap string string;
  upload_board_last : option string
}.

Arguments mkState {S O _ _}.
Arguments board {S O _ _}.
Arguments used_qids {S O _ _}.
Arguments active_qid {S O _ _}.
Arguments reveal_answer {S O _ _}.
Arguments scores {S O _ _}.
Arguments team_colors {S O _ _}.
Arguments upload_board_last {S O _ _}.

Abbreviation StrState := (State string (option string)).
Abbreviation PyState := (State pyval pyval).

(** The state [ensure_state] builds on the first run. *)
Definition initial_state : StrState :=
  mkState new_board ∅ None false ∅ ∅ None.

(** ** Lookup *)

(** [if s:] for a [str]. *)
Definition str_truthy (s : string) : bool := negb (String.eqb s "").

Definition has_id (qid : string) (q : StrQuestion) : bool :=
  bool_decide (question_id q = qid).

(** The two nested loops of [find_question]: the first category, in board
    order, that holds a question with this id, and the first such question
    in it. *)
Fixpoint find_question_in (cats : list StrCategory) (qid : string)
  : option (StrCategory * StrQuestion) :=
  match cats with
  | [] => None
  | cat :: rest =>
      match find (has_id qid) (questions cat) with
      | Some q => Some (cat, q)
      | None => find_question_in rest qid
      end
  end.

Definition find_question (b : StrBoard) (qid : string)
  : option (StrCategory * StrQuestion) :=
  find_question_in (categories b) qid.

(** The pair [cat, q] that [find_question] returns refers to objects inside
    the board; an assignment to a field of [cat] or [q] changes the board.
    [update_found qid f cats] rewrites, with [f], the category that
    [find_question] returns for [qid]. *)
Fixpoint update_found (qid : string) (f : StrCategory → StrCategory)
    (cats : list StrCategory) : list StrCategory :=
  match cats with
  | [] => []
  | cat :: rest =>
      match find (has_id qid) (questions cat) with
      | Some _ => f cat :: rest
      | None => cat :: update_found qid f rest
      end
  end.

(** The same for the question: the first question with this id in a list. *)
Fixpoint update_first (qid : string) (g : StrQuestion → StrQuestion)
    (qs : list StrQuestion) : list StrQuestion :=
  match qs with
  | [] => []
  | q :: rest =>
      if has_id qid q then g q :: rest else q :: update_first qid g rest
  end.

Definition set_questions (qs : list StrQuestion) (cat : StrCategory) : StrCategory :=
  mkCategory (category_id cat) (name cat) qs.

Definition set_timer_seconds (t : Z) (q : StrQuestion) : StrQuestion :=
  mkQuestion (question_id q) (points q) (prompt q) (answer q) (media q) t.

Definition set_categories (cats : list StrCategory) (b : StrBoard) : StrBoard :=
  mkBoard (title b) cats.

(** ** Editor intents (sidebar) *)

(** "Remove" next to a category.  The used set is recomputed first, against
    the board as it still is; then the category list is replaced. *)
Definition remove_category (st : StrState) (cat : StrCategory) : StrState :=
  let used := filter (λ qid, is_Some (find_question (board st) qid)) (used_qids st) in
  let cats := filter (λ c, category_id c ≠ category_id cat) (categories (board st)) in
  mkState (set_categories cats (board st)) used (active_qid st) (reveal_answer st)
    (scores st) (team_colors st) (upload_board_last st).

(** "Delete Question" for the id chosen in the select box; [cat, q] is what
    [find_question] found for it. *)
Definition delete_question (st : StrState) (qid : string) : StrState :=
  match find_question (board st) qid with
  | Some (cat, q) =>
      let keep := filter (λ qq, question_id qq ≠ question_id q) in
      let cats :=
        update_found qid (λ c, set_questions (keep (questions c)) c)
          (categories (board st)) in
      mkState (set_categories cats (board st)) (used_qids st ∖ {[question_id q]})
        (active_qid st) (reveal_answer st) (scores st) (team_colors st)
        (upload_board_last st)
  | None => st
  end.

(** ** Game intents (main area) *)

(** [sorted(xs, key=key)]: the stable ascending sort, here by insertion. *)
Fixpoint insert_sorted {A} (key : A → Z) (x : A) (l : list A) : list A :=
  match l with
  | [] => [x]
  | y :: l' => if key x <=? key y then x :: l else y :: insert_sorted key x l'
  end.

Definition stable_sort {A} (key : A → Z) (l : list A) : list A :=
  foldr (insert_sorted key) [] l.

(** [sorted(xs, key=key, reverse=reverse)].  With [reverse=True] Python
    reverses the list, sorts it ascending and stably, and reverses the
    result. *)
Definition sorted {A} (xs : list A) (key : A → Z) (reverse : bool) : list A :=
  if reverse then list.reverse (stable_sort key (list.reverse xs))
  else stable_sort key xs.

(** [sorted(c.questions, key=lambda q: q.points, reverse=True)] *)
Definition display_column (c : StrCategory) : list StrQuestion :=
  sorted (questions c) points true.

(** [sorted_qs] in [render_board]: one column of questions per category. *)
Definition sorted_qs (b : StrBoard) : list (list StrQuestion) :=
  display_column <$> categories b.

(** The grid button of question [q] is rendered disabled when its id is in
    the used set; a disabled button cannot be pressed. *)
Definition button_disabled (st : StrState) (q : StrQuestion) : bool :=
  bool_decide (question_id q ∈ used_qids st).

(** Pressing the grid button of [q]. *)
Definition select_question (st : StrState) (q : StrQuestion) : StrState :=
  if button_disabled st q then st
  else mkState (board st) (used_qids st) (Some (question_id q)) false
         (scores st) (team_colors st) (upload_board_last st).

(** The question shown in the viewer: [active_qid] must be truthy and
    [find_question] must find it. *)
Definition active_question (st : StrState) : option (StrCategory * StrQuestion) :=
  match active_qid st with
  | Some qid => if str_truthy qid then find_question (board st) qid else None
  | None => None
  end.

(** The four buttons under the viewer exist only while it is shown. *)
Definition reveal_answer_pressed (st : StrState) : StrState :=
  match active_question st with
  | Some _ => mkState (board st) (used_qids st) (active_qid st) true
                (scores st) (team_colors st) (upload_board_last st)
  | None => st
  end.

Definition hide_answer_pressed (st : StrState) : StrState :=
  match active_question st with
  | Some _ => mkState (board st) (used_qids st) (active_qid st) false
                (scores st) (team_colors st) (upload_board_last st)
  | None => st
  end.

Definition mark_used (st : StrState) : StrState :=
  match active_question st with
  | Some (_, q) => mkState (board st) ({[question_id q]} ∪ used_qids st) None false
                     (scores st) (team_colors st) (upload_board_last st)
  | None => st
  end.

Definition close_active (st : StrState) : StrState :=
  match active_question st with
  | Some _ => mkState (board st) (used_qids st) None false
                (scores st) (team_colors st) (upload_board_last st)
  | None => st
  end.

(** "Reset Used Questions" *)
Definition reset_used (st : StrState) : StrState :=
  mkState (board st) ∅ None false (scores st) (team_colors st) (upload_board_last st).

(** [range(n, -1, -1)] *)
Definition countdown_range (n : Z) : list Z :=
  (λ i, n - Z.of_nat i) <$> seq 0 (Z.to_nat (n + 1)).

(** "Start Timer" with [timer_val] in the number input.  The duration is
    stored in the question, the loop shows [divmod(remaining, 60)] for every
    [remaining] of the range, and then the question is marked used and the
    viewer closed.  The second component is what the placeholder showed. *)
Definition start_timer (st : StrState) (timer_val : Z) : StrState * list (Z * Z) :=
  match active_question st with
  | Some (_, q) =>
      let qid := question_id q in
      let store c :=
        set_questions (update_first qid (set_timer_seconds timer_val) (questions c)) c in
      let b := set_categories (update_found qid store (categories (board st))) (board st) in
      let shown := (λ remaining, (remaining / 60, remaining mod 60)) <$> countdown_range timer_val in
      (mkState b ({[qid]} ∪ used_qids st) None false
         (scores st) (team_colors st) (upload_board_last st), shown)
  | None => (st, [])
  end.

(** ** Scoreboard *)

(** [str.isspace] on a code point below 256. *)
Definition py_isspace (c : ascii) : bool :=
  let n := Z.of_N (N_of_ascii c) in
  ((9 <=? n) && (n <=? 13)) || ((28 <=? n) && (n <=? 32)) || (n =? 133) || (n =? 160).

Fixpoint lstrip (s : string) : string :=
  match s with
  | String c s' => if py_isspace c then lstrip s' else s
  | EmptyString => EmptyString
  end.

(** [s.strip()] *)
Definition strip (s : string) : string :=
  String.rev (lstrip (String.rev (lstrip s))).

(** [d.setdefault(k, v)] *)
Definition setdefault {V} (k : string) (v : V) (d : gmap string V) : gmap string V :=
  match d !! k with
  | Some _ => d
  | None => <[k := v]> d
  end.

(** The callback of "Add Team"; [team_name] and [team_color] are what the two
    sidebar widgets hold. *)
Definition add_team (st : StrState) (team_name team_color : string) : StrState :=
  let name := strip team_name in
  if str_truthy name && negb (bool_decide (name ∈ dom (scores st))) then
    mkState (board st) (used_qids st) (active_qid st) (reveal_answer st)
      (setdefault name 0 (scores st)) (setdefault name team_color (team_colors st))
      (upload_board_last st)
  else st.

(** [inc_score(team, delta)] *)
Definition inc_score (st : StrState) (team : string) (delta : Z) : StrState :=
  match scores st !! team with
  | Some s =>
      mkState (board st) (used_qids st) (active_qid st) (reveal_answer st)
        (<[team := s + delta]> (scores st)) (team_colors st) (upload_board_last st)
  | None => st
  end.

(** [remove_team(team)] *)
Definition remove_team (st : StrState) (team : string) : StrState :=
  match scores st !! team with
  | Some _ =>
      mkState (board st) (used_qids st) (active_qid st) (reveal_answer st)
        (delete team (scores st)) (delete team (team_colors st)) (upload_board_last st)
  | None => st
  end.

(** ** Loading a board *)

(** The file held by the "Load board (.json)" uploader: its name and what
    [read()] returns. *)
Record UploadedFile : Type := mkUploadedFile {
  upload_name : string;
  upload_bytes : list Byte.byte
}.

(** What the sidebar shows after the load block. *)
Inductive notice : Type :=
| BoardLoaded                  (* st.success("Board loaded.") *)
| FailedToLoad (e : exn).      (* st.error(f"Failed to load board: {e}") *)

Section Load.

Variable json_loads : string → option pyval.
Variable int_of_str : string → option Z.
(** [bytes.decode("utf-8")]; [None] stands for [UnicodeDecodeError]. *)
Variable utf8_decode : list Byte.byte → option string.

(** [f"{name}:{len(bytes_data)}"] *)
Definition upload_id (up : UploadedFile) : string :=
  upload_name up +:+ ":" +:+ pretty (length (upload_bytes up)).

(** The [try] body: decode, deserialize. *)
Definition read_upload (up : UploadedFile) : result PyBoard :=
  match utf8_decode (upload_bytes up) with
  | Some s => deserialize_board json_loads int_of_str s
  | None => Raise UnicodeDecodeError
  end.

(** The load block of [sidebar_editor].  An upload whose id equals the last
    processed one is skipped; otherwise the board is replaced only after
    [deserialize_board] has returned, and any exception is caught and
    shown. *)
Definition load_board (st : PyState) (uploaded : option UploadedFile)
  : PyState * option notice :=
  match uploaded with
  | None => (st, None)
  | Some up =>
      if bool_decide (upload_board_last st = Some (upload_id up)) then (st, None)
      else
        match read_upload up with
        | Ok newb =>
            (mkState newb (used_qids st) (active_qid st) (reveal_answer st)
               (scores st) (team_colors st) (Some (upload_id up)),
             Some BoardLoaded)
        | Raise e => (st, Some (FailedToLoad e))
        end
  end.

End Load.

(** ** A reference JSON codec

    Executable stand-ins for the library functions, used to run the
    serializer and the load block on concrete documents: [dumps] writes what
    [json.dumps(v, indent=2)] writes, [loads] reads JSON text whose numbers
    are integers and whose [\u] escapes stay below 256. *)
Module Json.

Definition quote : ascii := "034"%char.
Definition backslash : ascii := "\"%char.
Definition newline : ascii := "010"%char.

Definition hex_digit (n : N) : ascii :=
  if (n <? 10)%N then ascii_of_N (48 + n) else ascii_of_N (87 + n).

(** One character of a string literal, escaped as [ensure_ascii] does. *)
Definition escape (c : ascii) : string :=
  let n := N_of_ascii c in
  if bool_decide (c = quote) then String backslash (String quote "")
  else if bool_decide (c = backslash) then String backslash (String backslash "")
  else if (n =? 10)%N then "\n"
  else if (n =? 13)%N then "\r"
  else if (n =? 9)%N then "\t"
  else if (n =? 8)%N then "\b"
  else if (n =? 12)%N then "\f"
  else if ((32 <=? n) && (n <=? 126))%N then String c ""
  else "\u00" +:+ String (hex_digit (n / 16)) (String (hex_digit (n mod 16)) "").

Fixpoint escape_all (s : string) : string :=
  match s with
  | EmptyString => ""
  | String c s' => escape c +:+ escape_all s'
  end.

Definition literal (s : string) : string :=
  String quote (escape_all s +:+ String quote "").

Fixpoint spaces (n : nat) : string :=
  match n with O => "" | S n' => String " " (spaces n') end.

Definition break (level : nat) : string := String newline (spaces (2 * level)).

Fixpoint join (sep : string) (parts : list string) : string :=
  match parts with
  | [] => ""
  | [p] => p
  | p :: rest => p +:+ sep +:+ join sep rest
  end.

Fixpoint dumps_at (level : nat) (v : pyval) : string :=
  match v with
  | PyNone => "null"
  | PyBool true => "true"
  | PyBool false => "false"
  | PyInt n => pretty n
  | PyStr s => literal s
  | PyList [] => "[]"
  | PyList l =>
      "[" +:+ break (S level)
      +:+ join ("," +:+ break (S level)) (map (dumps_at (S level)) l)
      +:+ break level +:+ "]"
  | PyDict [] => "{}"
  | PyDict kvs =>
      "{" +:+ break (S level)
      +:+ join ("," +:+ break (S level))
            (map (λ kv, literal kv.1 +:+ ": " +:+ dumps_at (S level) kv.2) kvs)
      +:+ break level +:+ "}"
  end.

(** [json.dumps(v, indent=2)] *)
Definition dumps (v : pyval) : string := dumps_at 0 v.

(** *** Reading *)

Definition is_ws (c : ascii) : bool :=
  let n := N_of_ascii c in
  ((n =? 32) || (n =? 10) || (n =? 13) || (n =? 9))%N.

Fixpoint skip_ws (cs : list ascii) : list ascii :=
  match cs with
  | c :: cs' => if is_ws c then skip_ws cs' else cs
  | [] => []
  end.

Definition digit_of (c : ascii) : option Z :=
  let n := N_of_ascii c in
  if ((48 <=? n) && (n <=? 57))%N then Some (Z.of_N (n - 48)) else None.

Definition hex_of (c : ascii) : option N :=
  let n := N_of_ascii c in
  if ((48 <=? n) && (n <=? 57))%N then Some (n - 48)%N
  else if ((97 <=? n) && (n <=? 102))%N then Some (n - 87)%N
  else if ((65 <=? n) && (n <=? 70))%N then Some (n - 55)%N
  else None.

Fixpoint read_digits (acc : Z) (cs : list ascii) : Z * list ascii :=
  match cs with
  | c :: cs' =>
      match digit_of c with
      | Some d => read_digits (10 * acc + d) cs'
      | None => (acc, cs)
      end
  | [] => (acc, [])
  end.

Definition starts_fraction (cs : list ascii) : bool :=
  match cs with
  | c :: _ => bool_decide (c = "."%char ∨ c = "e"%char ∨ c = "E"%char)
  | [] => false
  end.

(** An integer literal; a fraction or an exponent is rejected. *)
Definition read_int (cs : list ascii) : option (Z * list ascii) :=
  let '(neg, cs1) :=
    match cs with
    | c :: cs' => if bool_decide (c = "-"%char) then (true, cs') else (false, cs)
    | [] => (false, cs)
    end in
  match cs1 with
  | c :: _ =>
      match digit_of c with
      | Some _ =>
          let '(n, rest) := read_digits 0 cs1 in
          if starts_fraction rest then None
          else Some (if neg then - n else n, rest)
      | None => None
      end
  | [] => None
  end.

(** The characters after the opening quote, up to the closing one. *)
Fixpoint read_string (cs : list ascii) : option (string * list ascii) :=
  match cs with
  | [] => None
  | c :: cs' =>
      if bool_decide (c = quote) then Some ("", cs')
      else if bool_decide (c = backslash) then
        match cs' with
        | e :: cs'' =>
            if bool_decide (e = "u"%char) then
              match cs'' with
              | h1 :: h2 :: h3 :: h4 :: cs3 =>
                  match hex_of h1, hex_of h2, hex_of h3, hex_of h4 with
                  | Some 0%N, Some 0%N, Some a, Some b =>
                      match read_string cs3 with
                      | Some (s, r) => Some (String (ascii_of_N (16 * a + b)) s, r)
                      | None => None
                      end
                  | _, _, _, _ => None
                  end
              | _ => None
              end
            else
              let plain :=
                if bool_decide (e = quote) then Some quote
                else if bool_decide (e = backslash) then Some backslash
                else if bool_decide (e = "/"%char) then Some "/"%char
                else if bool_decide (e = "n"%char) then Some newline
                else if bool_decide (e = "r"%char) then Some "013"%char
                else if bool_decide (e = "t"%char) then Some "009"%char
                else if bool_decide (e = "b"%char) then Some "008"%char
                else if bool_decide (e = "f"%char) then Some "012"%char
                else None in
              match plain with
              | Some x =>
                  match read_string cs'' with
                  | Some (s, r) => Some (String x s, r)
                  | None => None
                  end
              | None => None
              end
        | [] => None
        end
      else
        match read_string cs' with
        | Some (s, r) => Some (String c s, r)
        | None => None
        end
  end.

Fixpoint expect (word : list ascii) (cs : list ascii) : option (list ascii) :=
  match word, cs with
  | [], _ => Some cs
  | w :: word', c :: cs' => if bool_decide (w = c) then expect word' cs' else None
  | _ :: _, [] => None
  end.

Fixpoint read_value (fuel : nat) (cs : list ascii) : option (pyval * list ascii) :=
  match fuel with
  | O => None
  | S fuel' =>
      match skip_ws cs with
      | [] => None
      | c :: cs' =>
          if bool_decide (c = "n"%char) then
            rest ← expect (String.list_ascii_of_string "ull") cs'; Some (PyNone, rest)
          else if bool_decide (c = "t"%char) then
            rest ← expect (String.list_ascii_of_string "rue") cs'; Some (PyBool true, rest)
          else if bool_decide (c = "f"%char) then
            rest ← expect (String.list_ascii_of_string "alse") cs'; Some (PyBool false, rest)
          else if bool_decide (c = quote) then
            '(s, rest) ← read_string cs'; Some (PyStr s, rest)
          else if bool_decide (c = "["%char) then
            match skip_ws cs' with
            | d :: cs'' =>
                if bool_decide (d = "]"%char) then Some (PyList [], cs'')
                else '(l, rest) ← read_elements fuel' cs'; Some (PyList l, rest)
            | [] => None
            end
          else if bool_decide (c = "{"%char) then
            match skip_ws cs' with
            | d :: cs'' =>
                if bool_decide (d = "}"%char) then Some (PyDict [], cs'')
                else '(kvs, rest) ← read_members fuel' cs'; Some (PyDict kvs, rest)
            | [] => None
            end
          else
            '(n, rest) ← read_int (c :: cs'); Some (PyInt n, rest)
      end
  end
with read_elements (fuel : nat) (cs : list ascii) : option (list pyval * list ascii) :=
  match fuel with
  | O => None
  | S fuel' =>
      '(v, rest) ← read_value fuel' cs;
      match skip_ws rest with
      | d :: rest' =>
          if bool_decide (d = ","%char) then
            '(l, rest'') ← read_elements fuel' rest'; Some (v :: l, rest'')
          else if bool_decide (d = "]"%char) then Some ([v], rest')
          else None
      | [] => None
      end
  end
with read_members (fuel : nat) (cs : list ascii)
  : option (list (string * pyval) * list ascii) :=
  match fuel with
  | O => None
  | S fuel' =>
      match skip_ws cs with
      | q :: cs1 =>
          if bool_decide (q = quote) then
            '(k, cs2) ← read_string cs1;
            match skip_ws cs2 with
            | colon :: cs3 =>
                if bool_decide (colon = ":"%char) then
                  '(v, rest) ← read_value fuel' cs3;
                  match skip_ws rest with
                  | d :: rest' =>
                      if bool_decide (d = ","%char) then
                        '(kvs, rest'') ← read_members fuel' rest';
                        Some ((k, v) :: kvs, rest'')
                      else if bool_decide (d = "}"%char) then Some ([(k, v)], rest')
                      else None
                  | [] => None
                  end
                else None
            | [] => None
            end
          else None
      | [] => None
      end
  end.

(** [json.loads(s)] *)
Definition loads (s : string) : option pyval :=
  let cs := String.list_ascii_of_string s in
  match read_value (S (length cs)) cs with
  | Some (v, rest) => if bool_decide (skip_ws rest = []) then Some v else None
  | None => None
  end.

(** [int(s)] for a plain decimal literal with an optional sign. *)
Definition int_of_str (s : string) : option Z :=
  let cs := String.list_ascii_of_string (strip s) in
  let '(neg, cs1) :=
    match cs with
    | c :: cs' =>
        if bool_decide (c = "-"%char) then (true, cs')
        else if bool_decide (c = "+"%char) then (false, cs')
        else (false, cs)
    | [] => (false, cs)
    end in
  match cs1 with
  | [] => None
  | _ :: _ =>
      if forallb (λ c, bool_decide (is_Some (digit_of c))) cs1
      then Some (let n := (read_digits 0 cs1).1 in if neg then - n else n)
      else None
  end.

(** [bytes.decode("utf-8")] on pure ASCII input. *)
Definition ascii_decode (bs : list Byte.byte) : option string :=
  if forallb (λ b, (Byte.to_N b <? 128)%N) bs
  then Some (String.string_of_list_byte bs)
  else None.

End Json.

(** * Properties *)

(** ** Serializer: round trip *)

Lemma comprehension_fmap {A B} (f : A → result B) (g : B → A) (l : list B) :
  (∀ x, f (g x) = Ok x) → comprehension f (g <$> l) = Ok l.
Proof.
  intros Hfg. induction l as [ | x l IH ]; [reflexivity | ].
  rewrite fmap_cons. simpl. rewrite Hfg. simpl. rewrite IH. reflexivity.
Qed.

Lemma to_media_asdict (m : PyMediaItem) : to_media (asdict_media m) = Ok m.
Proof. destruct m. reflexivity. Qed.

Lemma to_q_asdict int_of_str (q : PyQuestion) :
  to_q int_of_str (asdict_question q) = Ok q.
Proof.
  destruct q as [i p pr a ms t]. unfold to_q, asdict_question. cbn.
  rewrite (comprehension_fmap to_media asdict_media ms to_media_asdict).
  reflexivity.
Qed.

Lemma to_cat_asdict int_of_str (c : PyCategory) :
  to_cat int_of_str (asdict_category c) = Ok c.
Proof.
  destruct c as [i n qs]. unfold to_cat, asdict_category. cbn.
  rewrite (comprehension_fmap _ asdict_question qs (to_q_asdict int_of_str)).
  reflexivity.
Qed.

Lemma board_of_raw_asdict int_of_str (b : PyBoard) :
  board_of_raw int_of_str (asdict b) = Ok b.
Proof.
  destruct b as [t cs]. unfold board_of_raw, asdict. cbn.
  rewrite (comprehension_fmap _ asdict_category cs (to_cat_asdict int_of_str)).
  reflexivity.
Qed.

(** C1.  Round trip.  For every board [b], whatever its title, categories,
    questions and media items hold, deserializing the serialized board gives
    [b] back, field for field and in the same order.  The only thing asked of
    the JSON library is that [json.loads] reads back the value that
    [json.dumps] wrote for this board. *)
Theorem deserialize_serialize_roundtrip
    (json_dumps : pyval → string) (json_loads : string → option pyval)
    (int_of_str : string → option Z) (b : PyBoard) :
  json_loads (json_dumps (asdict b)) = Some (asdict b) →
  deserialize_board json_loads int_of_str (serialize_board json_dumps b) = Ok b.
Proof.
  intros Hlib. unfold deserialize_board, serialize_board.
  rewrite Hlib. apply board_of_raw_asdict.
Qed.

(** A board with an uploaded image (base64 payload) and a linked video. *)
Definition sample_board : StrBoard :=
  mkBoard "Trivia night"
    [mkCategory "c-1" "History"
       [mkQuestion "q-1" 100 "Q1" "A1"
          [mkMediaItem "image" "upload" (Some "map.png") (Some "image/png")
             (Some "aGVsbG8gd29ybGQ=") None;
           mkMediaItem "video" "url" None None None (Some "http://example.org/v.mp4")]
          30;
        mkQuestion "q-2" 500 "Q2" "A2" [] 45];
     mkCategory "c-2" "Science" []].

Lemma deserialize_serialize_roundtrip_witness :
  let b := board_value sample_board in
  Json.loads (Json.dumps (asdict b)) = Some (asdict b) ∧
  deserialize_board Json.loads Json.int_of_str (serialize_board Json.dumps b) = Ok b.
Proof.
  split.
  - vm_compute. reflexivity.
  - apply (deserialize_serialize_roundtrip Json.dumps Json.loads Json.int_of_str).
    vm_compute. reflexivity.
Defined.

#[local] Instance py_optional_inj : Inj (=) (=) py_optional.
Proof. intros [x | ] [y | ]; simpl; congruence. Qed.

#[local] Instance media_value_inj : Inj (=) (=) media_value.
Proof.
  intros [k1 s1 f1 m1 b1 u1] [k2 s2 f2 m2 b2 u2]. unfold media_value. simpl.
  intros H. injection H as -> -> Hf Hm Hb Hu.
  by rewrite (inj py_optional _ _ Hf), (inj py_optional _ _ Hm),
    (inj py_optional _ _ Hb), (inj py_optional _ _ Hu).
Qed.

#[local] Instance question_value_inj : Inj (=) (=) question_value.
Proof.
  intros [i1 p1 r1 a1 m1 t1] [i2 p2 r2 a2 m2 t2]. unfold question_value. simpl.
  intros H. injection H as -> -> -> -> Hm ->.
  by rewrite (inj (fmap media_value) _ _ Hm).
Qed.

#[local] Instance category_value_inj : Inj (=) (=) category_value.
Proof.
  intros [i1 n1 q1] [i2 n2 q2]. unfold category_value. simpl.
  intros H. injection H as -> -> Hq.
  by rewrite (inj (fmap question_value) _ _ Hq).
Qed.

(** A board that follows the annotations is determined by its Python
    value. *)
Lemma board_value_inj (b1 b2 : StrBoard) : board_value b1 = board_value b2 → b1 = b2.
Proof.
  destruct b1 as [t1 c1], b2 as [t2 c2]. unfold board_value. simpl.
  intros H. injection H as -> Hc.
  by rewrite (inj (fmap category_value) _ _ Hc).
Qed.

(** The round trip for boards that follow the annotations: what comes back is
    the value of the same board and of no other. *)
Lemma roundtrip_annotated
    (json_dumps : pyval → string) (json_loads : string → option pyval)
    (int_of_str : string → option Z) (b : StrBoard) :
  json_loads (json_dumps (asdict (board_value b))) = Some (asdict (board_value b)) →
  ∀ b' : StrBoard,
    deserialize_board json_loads int_of_str (serialize_board json_dumps (board_value b))
      = Ok (board_value b') ↔ b' = b.
Proof.
  intros Hlib b'. unfold deserialize_board, serialize_board.
  rewrite Hlib, board_of_raw_asdict. split.
  - intros H. symmetry. apply board_value_inj. congruence.
  - by intros ->.
Qed.

(** ** Serializer: defaults and failures *)

Lemma dict_lookup_None (k : string) (kvs : list (string * pyval)) :
  dict_lookup k kvs = None ↔ k ∉ dict_keys kvs.
Proof.
  unfold dict_keys. rewrite elem_of_remove_dups.
  induction kvs as [ | [k' v] kvs IH ].
  - split; [intros _; apply not_elem_of_nil | done].
  - rewrite fmap_cons, not_elem_of_cons. simpl.
    destruct (dict_lookup k kvs) as [x | ].
    + split; [done | ]. intros [_ H]. by apply IH in H.
    + destruct (String.eqb_spec k' k) as [-> | Hne].
      * split; [done | ]. by intros [H _].
      * split; [ | done]. intros _. split; [congruence | by apply IH].
Qed.

Lemma dict_lookup_cons_absent (k k' : string) (v : pyval) (kvs : list (string * pyval)) :
  dict_lookup k' kvs = None →
  dict_lookup k ((k', v) :: kvs) =
    if String.eqb k' k then Some v else dict_lookup k kvs.
Proof.
  intros Habs. simpl. destruct (dict_lookup k kvs) as [x | ] eqn:E; [ | done].
  destruct (String.eqb_spec k' k) as [-> | ]; congruence.
Qed.

(** C10.  For every document that parses as a JSON object, an absent
    [title] or [categories] key is no error: [deserialize_board] takes
    ["Jeopardy!"] for an absent title and the empty list for absent
    categories.  Without [categories] it succeeds whatever else the object
    holds; without [title] it does exactly what it does for the same object
    with the title ["Jeopardy!"] written in. *)
Theorem deserialize_board_defaults
    (json_loads : string → option pyval) (int_of_str : string → option Z)
    (s : string) (kvs : list (string * pyval)) :
  json_loads s = Some (PyDict kvs) →
  ("categories" ∉ dict_keys kvs →
     deserialize_board json_loads int_of_str s =
       Ok (mkBoard (default (PyStr "Jeopardy!") (dict_lookup "title" kvs)) [])) ∧
  ("title" ∉ dict_keys kvs →
     deserialize_board json_loads int_of_str s =
       board_of_raw int_of_str (PyDict (("title", PyStr "Jeopardy!") :: kvs))) ∧
  ("title" ∉ dict_keys kvs → "categories" ∉ dict_keys kvs →
     deserialize_board json_loads int_of_str s = Ok (board_value new_board)).
Proof.
  intros Hparse. unfold deserialize_board. rewrite Hparse.
  repeat split.
  - intros Hc%dict_lookup_None. unfold board_of_raw, py_get. rewrite Hc. reflexivity.
  - intros Ht%dict_lookup_None. unfold board_of_raw, py_get.
    rewrite !(dict_lookup_cons_absent _ "title") by done.
    rewrite Ht. reflexivity.
  - intros Ht%dict_lookup_None Hc%dict_lookup_None.
    unfold board_of_raw, py_get. rewrite Ht, Hc. reflexivity.
Qed.

Lemma deserialize_board_defaults_witness :
  let s := Json.dumps (PyDict [("note", PyStr "no title, no categories")]) in
  Json.loads s = Some (PyDict [("note", PyStr "no title, no categories")]) ∧
  deserialize_board Json.loads Json.int_of_str s = Ok (board_value new_board).
Proof.
  split; [vm_compute; reflexivity | ].
  refine (proj2 (proj2 (deserialize_board_defaults Json.loads Json.int_of_str _
    [("note", PyStr "no title, no categories")] _)) _ _).
  - vm_compute. reflexivity.
  - apply dict_lookup_None. reflexivity.
  - apply dict_lookup_None. reflexivity.
Defined.





(** ** Loading: all or nothing *)

Section LoadFacts.

Variable json_loads : string → option pyval.
Variable int_of_str : string → option Z.
Variable utf8_decode : list Byte.byte → option string.

Let read := read_upload json_loads int_of_str utf8_decode.
Let load := load_board json_loads int_of_str utf8_decode.

(** An upload with the name and size of the last processed one is skipped:
    nothing is read, nothing is shown. *)
Lemma load_board_skips_processed (st : PyState) (up : UploadedFile) :
  upload_board_last st = Some (upload_id up) → load st (Some up) = (st, None).
Proof.
  intros H. unfold load, load_board. by rewrite bool_decide_eq_true_2.
Qed.

(** Either the state is untouched, or the whole board is the deserialized
    one and only [board] and [upload_board_last] differ. *)
Lemma load_board_all_or_nothing (st : PyState) (uploaded : option UploadedFile) :
  (load st uploaded).1 = st ∨
  ∃ up newb, uploaded = Some up ∧ read up = Ok newb ∧
    load st uploaded =
      (mkState newb (used_qids st) (active_qid st) (reveal_answer st)
         (scores st) (team_colors st) (Some (upload_id up)), Some BoardLoaded).
Proof.
  unfold load, load_board. destruct uploaded as [up | ]; [ | by left].
  case_bool_decide; [by left | ].
  destruct (read_upload _ _ _ up) as [newb | e] eqn:E; [ | by left].
  right. by exists up, newb.
Qed.


End LoadFacts.










(** A session that already holds a board. *)
Definition loaded_session : PyState :=
  mkState (board_value sample_board) ∅ None false ∅ ∅ None.

Definition upload_of (file_name : string) (raw : pyval) : UploadedFile :=
  mkUploadedFile file_name (String.list_byte_of_string (Json.dumps raw)).

(** A category whose only question has no [id]. *)
Definition document_without_question_id : pyval :=
  PyDict [("title", PyStr "Broken");
          ("categories", PyList [PyDict [("id", PyStr "c-1"); ("name", PyStr "History");
             ("questions", PyList [PyDict [("points", PyInt 100);
                ("prompt", PyStr "Q1"); ("answer", PyStr "A1")]])]])].



(** ** Display order *)

Section Sorting.

Context {A : Type} (key : A → Z).

Lemma insert_sorted_perm (x : A) (l : list A) : insert_sorted key x l ≡ₚ x :: l.
Proof.
  induction l as [ | y l IH ]; simpl; [done | ].
  destruct (key x <=? key y); [done | ].
  rewrite IH. apply Permutation_swap.
Qed.

Lemma insert_sorted_sorted (x : A) (l : list A) :
  StronglySorted (λ a b, key a ≤ key b) l →
  StronglySorted (λ a b, key a ≤ key b) (insert_sorted key x l).
Proof.
  induction l as [ | y l IH ]; simpl; intros Hl.
  - repeat constructor.
  - apply StronglySorted_cons in Hl as [Hy Hl].
    destruct (Z.leb_spec (key x) (key y)) as [Hle | Hgt].
    + apply StronglySorted_cons. split.
      * constructor; [done | ]. rewrite Forall_forall in Hy |- *.
        intros b Hb. specialize (Hy b Hb). lia.
      * by apply StronglySorted_cons.
    + apply StronglySorted_cons. split; [ | by apply IH].
      rewrite insert_sorted_perm. constructor; [lia | done].
Qed.

(** Insertion never moves an element past another one with the same key. *)
Lemma insert_sorted_stable (p : Z) (x : A) (l : list A) :
  filter (λ a, key a = p) (insert_sorted key x l) = filter (λ a, key a = p) (x :: l).
Proof.
  induction l as [ | y l IH ]; simpl; [done | ].
  destruct (Z.leb_spec (key x) (key y)) as [Hle | Hgt]; [done | ].
  rewrite (filter_cons _ y), IH, !filter_cons.
  repeat case_decide; (done || lia).
Qed.

Lemma stable_sort_perm (l : list A) : stable_sort key l ≡ₚ l.
Proof.
  induction l as [ | x l IH ]; simpl; [done | ].
  by rewrite insert_sorted_perm, IH.
Qed.

Lemma stable_sort_sorted (l : list A) :
  StronglySorted (λ a b, key a ≤ key b) (stable_sort key l).
Proof.
  induction l as [ | x l IH ]; simpl; [constructor | by apply insert_sorted_sorted].
Qed.

Lemma stable_sort_stable (p : Z) (l : list A) :
  filter (λ a, key a = p) (stable_sort key l) = filter (λ a, key a = p) l.
Proof.
  induction l as [ | x l IH ]; simpl; [done | ].
  by rewrite insert_sorted_stable, !filter_cons, IH.
Qed.

Lemma StronglySorted_reverse (R : relation A) (l : list A) :
  StronglySorted R l → StronglySorted (flip R) (reverse l).
Proof.
  induction 1 as [ | x l Hl IH Hx ]; [rewrite reverse_nil; constructor | ].
  rewrite reverse_cons. apply StronglySorted_app_2; [ | done | repeat constructor].
  intros a b Ha Hb%list_elem_of_singleton. subst b.
  rewrite elem_of_reverse in Ha. rewrite Forall_forall in Hx.
  unfold flip. by apply Hx, list_elem_of_In.
Qed.

Lemma StronglySorted_weaken (R1 R2 : relation A) (l : list A) :
  (∀ a b, R1 a b → R2 a b) → StronglySorted R1 l → StronglySorted R2 l.
Proof.
  intros HR. induction 1 as [ | x l Hl IH Hx ]; constructor; [done | ].
  rewrite Forall_forall in Hx |- *. intros b Hb. by apply HR, Hx.
Qed.

Lemma sorted_reverse_perm (l : list A) : sorted l key true ≡ₚ l.
Proof. unfold sorted. by rewrite reverse_Permutation, stable_sort_perm, reverse_Permutation. Qed.

Lemma sorted_reverse_descending (l : list A) :
  StronglySorted (λ a b, key b ≤ key a) (sorted l key true).
Proof.
  unfold sorted.
  eapply StronglySorted_weaken;
    [ | apply StronglySorted_reverse, stable_sort_sorted ].
  unfold flip. intros; lia.
Qed.

Lemma sorted_reverse_stable (p : Z) (l : list A) :
  filter (λ a, key a = p) (sorted l key true) = filter (λ a, key a = p) l.
Proof.
  unfold sorted.
  by rewrite filter_reverse, stable_sort_stable, filter_reverse, reverse_involutive.
Qed.

End Sorting.

(** C5.  The column shown for a category holds exactly the questions of the
    category, by points descending, and questions with equal points stay in
    the order they have in the category: for every point value, the
    questions of that value appear in the column as they appear in
    [questions c].  The column is a new list, computed from the category and
    not stored in it, so [questions c] keeps the authoring order. *)
Theorem display_column_order (c : StrCategory) :
  display_column c ≡ₚ questions c ∧
  StronglySorted (λ a b, points b ≤ points a) (display_column c) ∧
  ∀ p, filter (λ q, points q = p) (display_column c)
       = filter (λ q, points q = p) (questions c).
Proof.
  unfold display_column. split; [ | split].
  - apply sorted_reverse_perm.
  - apply sorted_reverse_descending.
  - intros p. apply (sorted_reverse_stable points).
Qed.

(** The scenario of the specification, with a tie added: 100, 500, 100. *)
Example display_column_history :
  let q x i := mkQuestion i x "Q" "A" [] 30 : StrQuestion in
  display_column (mkCategory "c-1" "History" [q 100 "a"; q 500 "b"; q 100 "c"])
    = [q 500 "b"; q 100 "a"; q 100 "c"].
Proof. reflexivity. Qed.

(** ** Reset *)

(** C9.  "Reset Used Questions" empties the used set, clears the active
    question and the reveal flag, and changes nothing else: the board, the
    scores and the team colours are the ones from before. *)
Theorem reset_used_frame (st : StrState) :
  used_qids (reset_used st) = ∅ ∧
  active_qid (reset_used st) = None ∧
  reveal_answer (reset_used st) = false ∧
  board (reset_used st) = board st ∧
  scores (reset_used st) = scores st ∧
  team_colors (reset_used st) = team_colors st ∧
  upload_board_last (reset_used st) = upload_board_last st.
Proof. repeat split. Qed.

(** ** Scoreboard *)

Lemma inc_score_present (st : StrState) (team : string) (s delta : Z) :
  scores st !! team = Some s →
  scores (inc_score st team delta) !! team = Some (s + delta).
Proof.
  intros H. unfold inc_score. rewrite H. simpl. apply lookup_insert_eq.
Qed.

Lemma inc_score_absent (st : StrState) (team : string) (delta : Z) :
  scores st !! team = None → inc_score st team delta = st.
Proof. intros H. unfold inc_score. by rewrite H. Qed.

Lemma add_team_fresh (st : StrState) (team_name team_color : string) :
  str_truthy (strip team_name) = true →
  scores st !! strip team_name = None →
  scores (add_team st team_name team_color) !! strip team_name = Some 0.
Proof.
  intros Hname Habs. unfold add_team. rewrite Hname.
  rewrite bool_decide_eq_false_2 by (by rewrite not_elem_of_dom).
  simpl. unfold setdefault. rewrite Habs. apply lookup_insert_eq.
Qed.

Lemma add_team_new (st : StrState) (team_name team_color : string) :
  str_truthy (strip team_name) = true →
  scores st !! strip team_name = None →
  add_team st team_name team_color
  = mkState (board st) (used_qids st) (active_qid st) (reveal_answer st)
      (<[strip team_name := 0]> (scores st))
      (setdefault (strip team_name) team_color (team_colors st))
      (upload_board_last st).
Proof.
  intros Hname Habs. unfold add_team. rewrite Hname.
  rewrite bool_decide_eq_false_2 by (by rewrite not_elem_of_dom).
  simpl. unfold setdefault at 1. by rewrite Habs.
Qed.

Lemma setdefault_lookup {V} (k k' : string) (v : V) (d : gmap string V) :
  setdefault k v d !! k' = if decide (k = k') then Some (default v (d !! k)) else d !! k'.
Proof.
  unfold setdefault. destruct (d !! k) as [w | ] eqn:E.
  - destruct (decide (k = k')) as [<- | ]; [by rewrite E | done].
  - destruct (decide (k = k')) as [<- | Hne].
    + by rewrite lookup_insert_eq.
    + by rewrite lookup_insert_ne.
Qed.

Lemma remove_team_present (st : StrState) (team : string) :
  is_Some (scores st !! team) →
  remove_team st team
  = mkState (board st) (used_qids st) (active_qid st) (reveal_answer st)
      (delete team (scores st)) (delete team (team_colors st)) (upload_board_last st).
Proof. intros [s Hs]. unfold remove_team. by rewrite Hs. Qed.

Lemma scoreboard_frame (st : StrState) (color team : string) (delta : Z) (st' : StrState) :
  st' ∈ [add_team st team color; inc_score st team delta; remove_team st team] →
  board st' = board st ∧ used_qids st' = used_qids st ∧
  active_qid st' = active_qid st ∧ reveal_answer st' = reveal_answer st.
Proof.
  intros H. repeat (apply elem_of_cons in H as [-> | H]); [ | | | by apply elem_of_nil in H].
  - unfold add_team. by destruct (_ && _).
  - unfold inc_score. by destruct (scores st !! team).
  - unfold remove_team. by destruct (scores st !! team).
Qed.

(** C8.  Scoreboard.  A team "A" that is not yet on the board is added with
    score 0, the other scores as they were, and with the chosen colour unless
    [team_colors] already has one for the name; [inc_score] adds the delta,
    negative or not, with no floor, so +100 then -300 gives -200, and changes
    no other score and no colour; on a name that is not in [scores] it
    changes nothing.  [remove_team] takes a team that is in [scores] out of
    both [scores] and [team_colors], deleting that name and no other, and
    changes nothing when the name is not in [scores].  None of the three
    touches the board, the used set, the active question or the reveal
    flag. *)
Theorem scoreboard_semantics (st : StrState) (color team : string) (delta : Z) :
  (scores st !! "A" = None →
     let st1 := add_team st "A" color in
     scores st1 !! "A" = Some 0 ∧
     scores (inc_score (inc_score st1 "A" 100) "A" (-300)) !! "A" = Some (-200) ∧
     scores st1 = <["A" := 0]> (scores st) ∧
     team_colors st1 !! "A" = Some (default color (team_colors st !! "A")) ∧
     (∀ other, other ≠ "A" → team_colors st1 !! other = team_colors st !! other)) ∧
  (∀ s, scores st !! team = Some s →
     scores (inc_score st team delta) !! team = Some (s + delta) ∧
     scores (inc_score st team delta) = <[team := s + delta]> (scores st) ∧
     team_colors (inc_score st team delta) = team_colors st) ∧
  (scores st !! team = None → inc_score st team delta = st) ∧
  (is_Some (scores st !! team) →
     scores (remove_team st team) !! team = None ∧
     team_colors (remove_team st team) !! team = None ∧
     scores (remove_team st team) = delete team (scores st) ∧
     team_colors (remove_team st team) = delete team (team_colors st) ∧
     (∀ other, other ≠ team →
        scores (remove_team st team) !! other = scores st !! other ∧
        team_colors (remove_team st team) !! other = team_colors st !! other)) ∧
  (scores st !! team = None → remove_team st team = st) ∧
  (∀ st', st' ∈ [add_team st team color; inc_score st team delta; remove_team st team] →
     board st' = board st ∧ used_qids st' = used_qids st ∧
     active_qid st' = active_qid st ∧ reveal_answer st' = reveal_answer st).
Proof.
  split; [ | split; [ | split; [ | split; [ | split]]]].
  - intros Habs st1.
    pose proof (add_team_fresh st "A" color eq_refl Habs) as H0.
    change (strip "A") with "A" in H0.
    split; [exact H0 | ]. split.
    { apply (inc_score_present _ "A" _ 100) in H0.
      apply (inc_score_present _ "A" _ (-300)) in H0. exact H0. }
    subst st1. rewrite (add_team_new st "A" color eq_refl Habs).
    change (strip "A") with "A". simpl. split; [done | ].
    split.
    + rewrite setdefault_lookup. by rewrite decide_True.
    + intros other Hne. rewrite setdefault_lookup. by rewrite decide_False.
  - intros s Hs. split; [by apply inc_score_present | ].
    unfold inc_score. by rewrite Hs.
  - apply inc_score_absent.
  - intros Hin. rewrite (remove_team_present _ _ Hin). simpl.
    split; [apply lookup_delete_eq | ]. split; [apply lookup_delete_eq | ].
    split; [done | ]. split; [done | ].
    intros other Hne. by rewrite !lookup_delete_ne.
  - intros H. unfold remove_team. by rewrite H.
  - apply scoreboard_frame.
Qed.

Lemma scoreboard_semantics_witness :
  let st1 := add_team initial_state "A" "#fff" in
  let st2 := add_team st1 "B" "#00f" in
  scores initial_state !! "A" = None ∧
  scores st1 !! "A" = Some 0 ∧
  scores (inc_score (inc_score st1 "A" 100) "A" (-300)) !! "A" = Some (-200) ∧
  scores (remove_team st1 "A") !! "A" = None ∧
  team_colors (remove_team st1 "A") !! "A" = None ∧
  inc_score (remove_team st1 "A") "A" 50 = remove_team st1 "A" ∧
  scores st2 !! "B" = Some 0 ∧
  scores (remove_team st2 "A") !! "B" = Some 0 ∧
  team_colors (remove_team st2 "A") !! "B" = Some "#00f" ∧
  scores (inc_score st2 "A" 50) !! "B" = Some 0.
Proof.
  intros st1 st2.
  pose proof (scoreboard_semantics initial_state "#fff" "A" 50) as (Hadd & _).
  pose proof (scoreboard_semantics st1 "#fff" "A" 50) as (_ & Hinc1 & _ & Hrm & _).
  pose proof (scoreboard_semantics (remove_team st1 "A") "#fff" "A" 50)
    as (_ & _ & Hinc & _).
  pose proof (scoreboard_semantics st2 "#00f" "A" 50) as (_ & Hinc2 & _ & Hrm2 & _).
  assert (scores initial_state !! "A" = None) as H0 by reflexivity.
  destruct (Hadd H0) as (Ha & Hb & _).
  assert (is_Some (scores st1 !! "A")) as H1 by (exists 0; exact Ha).
  destruct (Hrm H1) as (Hc & Hd & _).
  assert (scores st2 !! "A" = Some 0) as H2 by reflexivity.
  assert (scores st2 !! "B" = Some 0) as H3 by reflexivity.
  assert (team_colors st2 !! "B" = Some "#00f") as H4 by reflexivity.
  destruct (Hrm2 (ex_intro _ _ H2)) as (_ & _ & _ & _ & Hother).
  destruct (Hother "B" ltac:(discriminate)) as [Hs Hc'].
  destruct (Hinc2 0 H2) as (_ & Hins & _).
  refine (conj H0 (conj Ha (conj Hb (conj Hc (conj Hd (conj (Hinc Hc)
           (conj H3 (conj _ (conj _ _))))))))).
  - by rewrite Hs.
  - by rewrite Hc'.
  - rewrite Hins. by rewrite lookup_insert_ne.
Defined.

(** ** Lookup facts *)

Lemma find_has_id (qid : string) (qs : list StrQuestion) (q : StrQuestion) :
  find (has_id qid) qs = Some q → question_id q = qid ∧ q ∈ qs.
Proof.
  induction qs as [ | q0 qs IH ]; simpl; [done | ].
  unfold has_id at 1. case_bool_decide as Hid.
  - intros [= <-]. split; [done | left].
  - intros H. destruct (IH H) as [? ?]. split; [done | by right].
Qed.

Lemma find_has_id_elem (qs : list StrQuestion) (q : StrQuestion) :
  q ∈ qs → ∃ q', find (has_id (question_id q)) qs = Some q'.
Proof.
  induction 1 as [ q qs | q q0 qs Hin IH ]; simpl; unfold has_id at 1.
  - rewrite bool_decide_eq_true_2 by done. by eexists.
  - case_bool_decide; [by eexists | exact IH].
Qed.

(** What [find_question] returns is the first category, in board order, with
    a question of that id. *)
Lemma find_question_in_Some (cats : list StrCategory) (qid : string)
    (cat : StrCategory) (q : StrQuestion) :
  find_question_in cats qid = Some (cat, q) →
  ∃ before after,
    cats = before ++ cat :: after ∧
    Forall (λ c, find (has_id qid) (questions c) = None) before ∧
    find (has_id qid) (questions cat) = Some q.
Proof.
  induction cats as [ | c cats IH ]; simpl; [done | ].
  destruct (find (has_id qid) (questions c)) as [q0 | ] eqn:E.
  - intros [= <- <-]. by exists [], cats.
  - intros H. destruct (IH H) as (before & after & -> & Hb & Hq).
    exists (c :: before), after. repeat split; [by constructor | done].
Qed.

Lemma find_question_in_split (before after : list StrCategory) (qid : string)
    (cat : StrCategory) (q : StrQuestion) :
  Forall (λ c, find (has_id qid) (questions c) = None) before →
  find (has_id qid) (questions cat) = Some q →
  find_question_in (before ++ cat :: after) qid = Some (cat, q).
Proof.
  intros Hb Hq. induction Hb as [ | c before Hc _ IH ]; simpl.
  - by rewrite Hq.
  - by rewrite Hc.
Qed.

Lemma update_found_split (before after : list StrCategory) (qid : string)
    (f : StrCategory → StrCategory) (cat : StrCategory) (q : StrQuestion) :
  Forall (λ c, find (has_id qid) (questions c) = None) before →
  find (has_id qid) (questions cat) = Some q →
  update_found qid f (before ++ cat :: after) = before ++ f cat :: after.
Proof.
  intros Hb Hq. induction Hb as [ | c before Hc _ IH ]; simpl.
  - by rewrite Hq.
  - by rewrite Hc, IH.
Qed.

(** A question that is on the board is found by its id (the question found
    is the first one with that id). *)
Lemma find_question_on_board (b : StrBoard) (cat : StrCategory) (q : StrQuestion) :
  cat ∈ categories b → q ∈ questions cat →
  ∃ cat' q', find_question b (question_id q) = Some (cat', q')
             ∧ question_id q' = question_id q.
Proof.
  unfold find_question. intros Hcat Hq.
  induction Hcat as [ cat cats | cat c cats Hin IH ]; simpl.
  - destruct (find_has_id_elem _ _ Hq) as [q' Hq']. rewrite Hq'.
    exists cat, q'. split; [done | by apply (find_has_id _ _ _ Hq')].
  - destruct (find (has_id (question_id q)) (questions c)) as [q' | ] eqn:E.
    + exists c, q'. split; [done | by apply (find_has_id _ _ _ E)].
    + exact (IH Hq).
Qed.

Lemma find_update_first (qid : string) (g : StrQuestion → StrQuestion)
    (qs : list StrQuestion) (q : StrQuestion) :
  (∀ x, question_id (g x) = question_id x) →
  find (has_id qid) qs = Some q →
  find (has_id qid) (update_first qid g qs) = Some (g q).
Proof.
  intros Hg. induction qs as [ | q0 qs IH ]; simpl; [done | ].
  destruct (has_id qid q0) eqn:E.
  - intros [= <-]. simpl. unfold has_id in *. by rewrite Hg, E.
  - intros H. simpl. rewrite E. by apply IH.
Qed.

(** ** Removing a category *)

Definition history : StrCategory :=
  mkCategory "c-1" "History"
    [mkQuestion "q-1" 100 "Q1" "A1" [] 30; mkQuestion "q-2" 500 "Q2" "A2" [] 45].

Definition science : StrCategory := mkCategory "c-2" "Science" [].

(** A game in progress: question q-1 of History is used, and it is the one
    shown in the viewer. *)
Definition played_session : StrState :=
  mkState (mkBoard "Trivia night" [history; science]) {["q-1"]} (Some "q-1") false ∅ ∅ None.

(** The other session of the example: nothing used, nothing selected. *)
Definition fresh_session : StrState :=
  mkState (mkBoard "Trivia night" [history; science]) ∅ None false ∅ ∅ None.

(** The used set is filtered against the board before the category is
    taken out, so the ids of the removed category's questions pass the
    filter; nothing is assigned to [active_qid]. *)
Lemma remove_category_keeps_references (st : StrState) (cat : StrCategory) (qid : string) :
  (qid ∈ used_qids st → is_Some (find_question (board st) qid) →
     qid ∈ used_qids (remove_category st cat)) ∧
  active_qid (remove_category st cat) = active_qid st.
Proof.
  split; [ | done]. intros Hu Hf. unfold remove_category. simpl.
  by apply elem_of_filter.
Qed.

(** C2, the code at a failing input.  Removing History from a session whose
    used and active question is q-1 of History takes the category off the
    board, yet q-1 is still in the used set and still the active id. *)
Theorem remove_category_leaves_references :
  let st' := remove_category played_session history in
  categories (board st') = [science] ∧
  find_question (board st') "q-1" = None ∧
  "q-1" ∈ used_qids st' ∧
  active_qid st' = Some "q-1".
Proof.
  split; [reflexivity | ]. split; [reflexivity | ]. split; [ | reflexivity].
  apply (proj1 (remove_category_keeps_references played_session history "q-1")).
  - simpl. set_solver.
  - by eexists.
Qed.

(** ** Deleting a question *)

(** For the pair [cat, q] that [find_question] finds for the chosen id,
    "Delete Question" replaces the question list of
    [cat], in place, by the questions whose id differs from [q]'s: no
    question with that id is left in it, and the other categories are as
    they were.  The id is discarded from the used set.  [active_qid] and the
    rest of the session are not touched. *)
Lemma delete_question_effect (st : StrState) (qid : string)
    (cat : StrCategory) (q : StrQuestion) :
  find_question (board st) qid = Some (cat, q) →
  let st' := delete_question st qid in
  let cat' := set_questions (filter (λ qq, question_id qq ≠ qid) (questions cat)) cat in
  (∃ before after,
     categories (board st) = before ++ cat :: after ∧
     categories (board st') = before ++ cat' :: after) ∧
  (q ∉ questions cat') ∧
  (∀ qq, qq ∈ questions cat' → question_id qq ≠ qid) ∧
  title (board st') = title (board st) ∧
  used_qids st' = used_qids st ∖ {[qid]} ∧
  (qid ∉ used_qids st') ∧
  active_qid st' = active_qid st ∧
  reveal_answer st' = reveal_answer st ∧
  scores st' = scores st ∧
  team_colors st' = team_colors st.
Proof.
  intros Hfind. unfold delete_question. rewrite Hfind.
  destruct (find_question_in_Some _ _ _ _ Hfind) as (before & after & Hcats & Hb & Hq).
  destruct (find_has_id _ _ _ Hq) as [Hid Hin]. simpl. rewrite Hid.
  assert (∀ qq, qq ∈ filter (λ qq, question_id qq ≠ qid) (questions cat) →
            question_id qq ≠ qid) as Hgone.
  { intros qq Hqq. apply list_elem_of_filter in Hqq. tauto. }
  split; [ | repeat split].
  - exists before, after. split; [done | ].
    rewrite Hcats.
    by rewrite (update_found_split before after qid
      (λ c, set_questions (filter (λ qq, question_id qq ≠ qid) (questions c)) c) cat q).
  - intros Hq'. by apply (Hgone q Hq').
  - exact Hgone.
  - apply not_elem_of_difference. right. by apply elem_of_singleton.
Qed.

Lemma delete_question_effect_witness :
  let st' := delete_question played_session "q-1" in
  find_question (board played_session) "q-1"
    = Some (history, mkQuestion "q-1" 100 "Q1" "A1" [] 30) ∧
  used_qids st' = used_qids played_session ∖ {["q-1"]} ∧
  active_qid st' = active_qid played_session.
Proof.
  split; [reflexivity | ].
  pose proof (delete_question_effect played_session "q-1" history
                (mkQuestion "q-1" 100 "Q1" "A1" [] 30) eq_refl) as H.
  simpl in H. destruct H as (_ & _ & _ & _ & Hused & _ & Hactive & _).
  split; [exact Hused | exact Hactive].
Defined.

(** C3, the code at a failing input.  On the board of the example, with
    nothing used, the grid button of q-1 is pressed, which opens q-1 in the
    viewer, and then q-1 is deleted in the editor.  The question is off the
    board and its id is not in the used set, yet [active_qid] still holds
    the id, which no question of the board has any more.  "Delete Question"
    discards the id from [used_qids] and assigns nothing to [active_qid], as
    "Remove Category" assigns nothing to it. *)
Theorem delete_question_leaves_active :
  let q := mkQuestion "q-1" 100 "Q1" "A1" [] 30 : StrQuestion in
  let st := select_question fresh_session q in
  let st' := delete_question st "q-1" in
  active_qid st = Some "q-1" ∧
  active_question st = Some (history, q) ∧
  categories (board st')
    = [mkCategory "c-1" "History" [mkQuestion "q-2" 500 "Q2" "A2" [] 45]; science] ∧
  find_question (board st') "q-1" = None ∧
  ("q-1" ∉ used_qids st') ∧
  active_qid st' = Some "q-1" ∧
  active_question st' = None.
Proof.
  split; [reflexivity | ]. split; [reflexivity | ]. split; [reflexivity | ].
  split; [reflexivity | ]. split; [ | split; reflexivity].
  apply not_elem_of_difference. right. by apply elem_of_singleton.
Qed.

(** ** Selecting and marking used *)

Lemma str_truthy_nonempty (s : string) : s ≠ "" → str_truthy s = true.
Proof.
  intros H. unfold str_truthy. apply negb_true_iff. by apply String.eqb_neq.
Qed.

(** A board with a question whose id is the empty string, as a document with
    an empty [id] loads. *)
Definition blank_id_question : StrQuestion := mkQuestion "" 200 "Q" "A" [] 30.

Definition blank_id_session : StrState :=
  mkState (mkBoard "Trivia night" [mkCategory "c-1" "Misc" [blank_id_question]])
    ∅ None false ∅ ∅ None.

(** For a question whose id is the empty string, pressing the grid button
    stores the empty id; the viewer test [if active_qid:] is then false, so
    the viewer and its "Mark Used" button are not there. *)
Lemma blank_id_viewer_closed :
  let st := select_question blank_id_session blank_id_question in
  active_qid st = Some "" ∧ active_question st = None.
Proof. split; reflexivity. Qed.

(** The question the viewer shows is on the board and has the active id. *)
Lemma active_question_id (st : StrState) (cat : StrCategory) (q : StrQuestion) :
  active_question st = Some (cat, q) →
  active_qid st = Some (question_id q) ∧ cat ∈ categories (board st) ∧ q ∈ questions cat.
Proof.
  unfold active_question. destruct (active_qid st) as [qid | ]; [ | done].
  destruct (str_truthy qid); [ | done]. intros Hfind.
  destruct (find_question_in_Some _ _ _ _ Hfind) as (before & after & Hcats & _ & Hq).
  destruct (find_has_id _ _ _ Hq) as [-> Hin].
  split; [done | ]. split; [ | done].
  rewrite Hcats. apply elem_of_app. right. left.
Qed.

(** The viewer opens on pressing the enabled grid button of a question of
    the board whose id is not empty. *)
Lemma viewer_opens (st : StrState) (cat : StrCategory) (q : StrQuestion) :
  cat ∈ categories (board st) → q ∈ questions cat →
  question_id q ≠ "" → question_id q ∉ used_qids st →
  is_Some (active_question (select_question st q)).
Proof.
  intros Hcat Hq Hid Hfresh.
  destruct (find_question_on_board _ _ _ Hcat Hq) as (cat' & q' & Hfind & _).
  unfold select_question, button_disabled.
  rewrite bool_decide_eq_false_2 by done.
  unfold active_question. simpl.
  rewrite (str_truthy_nonempty _ Hid), Hfind. by eexists.
Qed.

(** C6.  "Mark Used" is a button of the viewer, so it can be pressed only
    while the viewer shows a question.  For a question whose id is not in
    the used set, pressing its grid button and then, in the viewer this
    opens, "Mark Used" leaves its id in the used set (which gains that id
    and nothing else), no active question and the answer hidden.  The viewer
    does open for every such question that is on the board with a non-empty
    id.  The grid button of a question whose id is in the used set is
    disabled and pressing it changes nothing; after "Reset Used Questions"
    the button is enabled again and selects the question. *)
Theorem select_then_mark_used (st : StrState) (q : StrQuestion) :
  (question_id q ∉ used_qids st →
   is_Some (active_question (select_question st q)) →
     let st' := mark_used (select_question st q) in
     question_id q ∈ used_qids st' ∧ active_qid st' = None ∧ reveal_answer st' = false ∧
     used_qids st' = {[question_id q]} ∪ used_qids st) ∧
  (∀ cat, cat ∈ categories (board st) → q ∈ questions cat →
     question_id q ≠ "" → question_id q ∉ used_qids st →
     is_Some (active_question (select_question st q))) ∧
  (question_id q ∈ used_qids st →
     button_disabled st q = true ∧ select_question st q = st) ∧
  button_disabled (reset_used st) q = false ∧
  active_qid (select_question (reset_used st) q) = Some (question_id q).
Proof.
  split; [ | split; [ | split; [ | split]]].
  - intros Hfresh [[cat' q'] Hact].
    destruct (active_question_id _ _ _ Hact) as (Hid & _).
    unfold mark_used. rewrite Hact. revert Hid.
    unfold select_question, button_disabled.
    rewrite bool_decide_eq_false_2 by done. simpl.
    intros [= ->]. split; [ | done].
    apply elem_of_union_l. by apply elem_of_singleton.
  - intros cat. apply viewer_opens.
  - intros Hused. unfold select_question, button_disabled.
    by rewrite bool_decide_eq_true_2.
  - unfold button_disabled. simpl. apply bool_decide_eq_false_2, not_elem_of_empty.
  - unfold select_question, button_disabled. simpl.
    by rewrite bool_decide_eq_false_2 by apply not_elem_of_empty.
Qed.

Lemma select_then_mark_used_witness :
  let q := mkQuestion "q-2" 500 "Q2" "A2" [] 45 : StrQuestion in
  let st' := mark_used (select_question fresh_session q) in
  (question_id q ∉ used_qids fresh_session) ∧
  active_question (select_question fresh_session q) = Some (history, q) ∧
  "q-2" ∈ used_qids st' ∧ active_qid st' = None ∧ reveal_answer st' = false ∧
  select_question st' q = st'.
Proof.
  intros q st'.
  assert (question_id q ∉ used_qids fresh_session) as Hfresh by apply not_elem_of_empty.
  assert (active_question (select_question fresh_session q) = Some (history, q)) as Hact
    by reflexivity.
  pose proof (select_then_mark_used fresh_session q) as (Hmark & _).
  destruct (Hmark Hfresh (ex_intro _ _ Hact)) as (Hu & Ha & Hr & _).
  pose proof (select_then_mark_used st' q) as (_ & _ & Hdis & _).
  exact (conj Hfresh (conj Hact (conj Hu (conj Ha (conj Hr (proj2 (Hdis Hu))))))).
Defined.

(** ** Countdown *)

Lemma countdown_range_ends (n : Z) :
  0 ≤ n → list.head (countdown_range n) = Some n ∧ list.last (countdown_range n) = Some 0.
Proof.
  intros Hn. unfold countdown_range.
  replace (Z.to_nat (n + 1)) with (S (Z.to_nat n)) by lia. split.
  - simpl. f_equal. lia.
  - rewrite seq_S, fmap_app, list_fmap_singleton, last_snoc. f_equal. lia.
Qed.

(** C7.  For the question shown in the viewer, "Start Timer" first stores
    the chosen duration in the question on the board: [find_question] now
    returns, for its id, the question with [timer_seconds] equal to the
    chosen value and every other field as before, in a category with the
    same id, name and number of questions, which a later save serializes.
    It then shows the countdown from that duration to zero, and then adds
    the id to the used set, clears the active question and hides the
    answer. *)
Theorem start_timer_effect (st : StrState) (timer_val : Z)
    (cat : StrCategory) (q : StrQuestion) :
  active_question st = Some (cat, q) →
  let st' := (start_timer st timer_val).1 in
  let shown := (start_timer st timer_val).2 in
  (∃ cat' q', find_question (board st') (question_id q) = Some (cat', q') ∧
     timer_seconds q' = timer_val ∧
     q' = mkQuestion (question_id q) (points q) (prompt q) (answer q) (media q) timer_val ∧
     category_id cat' = category_id cat ∧ name cat' = name cat ∧
     length (questions cat') = length (questions cat)) ∧
  shown = (λ r, (r / 60, r mod 60)) <$> countdown_range timer_val ∧
  (0 ≤ timer_val →
     list.head shown = Some (timer_val / 60, timer_val mod 60)
     ∧ list.last shown = Some (0, 0)) ∧
  used_qids st' = {[question_id q]} ∪ used_qids st ∧
  question_id q ∈ used_qids st' ∧
  active_qid st' = None ∧
  reveal_answer st' = false ∧
  title (board st') = title (board st) ∧
  ((category_id <$> categories (board st')) = (category_id <$> categories (board st))).
Proof.
  intros Hactive. unfold start_timer. rewrite Hactive. simpl.
  unfold active_question in Hactive.
  destruct (active_qid st) as [qid | ]; [ | done].
  destruct (str_truthy qid); [ | done].
  destruct (find_question_in_Some _ _ _ _ Hactive) as (before & after & Hcats & Hb & Hq).
  destruct (find_has_id _ _ _ Hq) as [Hid _]. subst qid.
  assert (find_question
            (set_categories
               (update_found (question_id q)
                  (λ c, set_questions
                          (update_first (question_id q) (set_timer_seconds timer_val)
                             (questions c)) c)
                  (categories (board st))) (board st)) (question_id q)
          = Some (set_questions
                    (update_first (question_id q) (set_timer_seconds timer_val)
                       (questions cat)) cat,
                  set_timer_seconds timer_val q)) as Hfind.
  { unfold find_question. simpl. rewrite Hcats.
    rewrite (update_found_split before after _ _ cat q Hb Hq).
    apply find_question_in_split; [done | ]. simpl.
    by apply find_update_first. }
  split.
  { eexists _, _. split; [exact Hfind | ]. simpl.
    split; [done | ]. split; [done | ]. split; [done | ]. split; [done | ].
    clear. induction (questions cat) as [ | q0 qs IH ]; simpl; [done | ].
    destruct (has_id (question_id q) q0); simpl; [done | by rewrite IH]. }
  split; [done | ]. split.
  { intros Hv. destruct (countdown_range_ends _ Hv) as [Hh Hl]. split.
    + destruct (countdown_range timer_val) as [ | r rs ]; [done | ].
      by injection Hh as ->.
    + by rewrite fmap_last, Hl. }
  split; [done | ]. split.
  { apply elem_of_union_l. by apply elem_of_singleton. }
  split; [done | ]. split; [done | ]. split; [done | ].
  rewrite Hcats. rewrite (update_found_split before after _ _ cat q Hb Hq).
  by rewrite !fmap_app, !fmap_cons.
Qed.

Lemma start_timer_effect_witness :
  let q := mkQuestion "q-1" 100 "Q1" "A1" [] 30 : StrQuestion in
  let st := select_question fresh_session q in
  let st' := (start_timer st 90).1 in
  active_question st = Some (history, q) ∧
  (∃ cat', find_question (board st') "q-1"
           = Some (cat', mkQuestion "q-1" 100 "Q1" "A1" [] 90)) ∧
  list.head (start_timer st 90).2 = Some (1, 30) ∧
  list.last (start_timer st 90).2 = Some (0, 0) ∧
  "q-1" ∈ used_qids st' ∧
  active_qid st' = None.
Proof.
  intros q st st'. split; [reflexivity | ].
  pose proof (start_timer_effect st 90 history q eq_refl)
    as (Hfind & _ & Hends & _ & Hused & Hactive & _).
  destruct Hfind as (cat' & q' & Hfind & _ & -> & _).
  destruct Hends as [Hh Hl]; [lia | ].
  exact (conj (ex_intro _ cat' Hfind) (conj Hh (conj Hl (conj Hused Hactive)))).
Defined.

(** * Further properties of the program *)

(** ** Deserializing: what is optional, what is read, what fails *)

Lemma comprehension_Ok {A B} (f : A → result B) (l : list A) (r : list B) :
  comprehension f l = Ok r ↔ Forall2 (λ x y, f x = Ok y) l r.
Proof.
  revert r. induction l as [ | x l IH ]; intros r; simpl.
  - split; [intros [= <-]; constructor | by inversion 1].
  - destruct (f x) as [y | e] eqn:E; simpl.
    + destruct (comprehension f l) as [ys | e] eqn:E'; simpl.
      * split.
        -- intros [= <-]. constructor; [done | by apply IH].
        -- inversion 1 as [ | ? y' ? ys' Hy Hys ]; subst.
           apply IH in Hys. congruence.
      * split; [done | ].
        inversion 1 as [ | ? y' ? ys' Hy Hys ]; subst. by apply IH in Hys.
    + split; [done | ]. inversion 1; congruence.
Qed.

Lemma dict_lookup_cons_ne (k k' : string) (v : pyval) (kvs : list (string * pyval)) :
  k' ≠ k → dict_lookup k ((k', v) :: kvs) = dict_lookup k kvs.
Proof.
  intros Hne. simpl. destruct (dict_lookup k kvs); [done | ].
  by destruct (String.eqb_spec k' k).
Qed.

(** X1.  The optional keys.  A media object needs only [kind] and [source],
    a question object only [id], [points], [prompt] and [answer], a category
    object only [id] and [name]: absent [filename], [mime], [b64], [url] are
    [None], absent [media] is the empty list, absent [timer_seconds] is 30,
    absent [questions] is the empty list. *)
Theorem deserialize_optional_keys (int_of_str : string → option Z)
    (kvs : list (string * pyval)) :
  (∀ k s,
     dict_lookup "kind" kvs = Some k → dict_lookup "source" kvs = Some s →
     dict_lookup "filename" kvs = None → dict_lookup "mime" kvs = None →
     dict_lookup "b64" kvs = None → dict_lookup "url" kvs = None →
     to_media (PyDict kvs) = Ok (mkMediaItem k s PyNone PyNone PyNone PyNone)) ∧
  (∀ i p pr a,
     dict_lookup "id" kvs = Some i → dict_lookup "points" kvs = Some (PyInt p) →
     dict_lookup "prompt" kvs = Some pr → dict_lookup "answer" kvs = Some a →
     dict_lookup "media" kvs = None → dict_lookup "timer_seconds" kvs = None →
     to_q int_of_str (PyDict kvs) = Ok (mkQuestion i p pr a [] 30)) ∧
  (∀ i n,
     dict_lookup "id" kvs = Some i → dict_lookup "name" kvs = Some n →
     dict_lookup "questions" kvs = None →
     to_cat int_of_str (PyDict kvs) = Ok (mkCategory i n [])).
Proof.
  split; [ | split].
  - intros k s Hk Hs Hf Hm Hb Hu. unfold to_media, py_getitem, py_get.
    by rewrite Hk, Hs, Hf, Hm, Hb, Hu.
  - intros i p pr a Hi Hp Hpr Ha Hm Ht. unfold to_q, py_getitem, py_get.
    by rewrite Hi, Hp, Hpr, Ha, Hm, Ht.
  - intros i n Hi Hn Hq. unfold to_cat, py_getitem, py_get.
    by rewrite Hi, Hn, Hq.
Qed.

Lemma deserialize_optional_keys_witness :
  to_q Json.int_of_str
    (PyDict [("id", PyStr "q-9"); ("points", PyInt 400);
             ("prompt", PyStr "Q"); ("answer", PyStr "A")])
  = Ok (mkQuestion (PyStr "q-9") 400 (PyStr "Q") (PyStr "A") [] 30).
Proof.
  apply (proj1 (proj2 (deserialize_optional_keys Json.int_of_str _)));
    reflexivity.
Defined.

(** X2.  Only objects are accepted.  A document whose top level is not an
    object makes [raw.get] raise [AttributeError]; a category, question or
    media entry that is not an object makes the first subscript raise
    [TypeError]. *)
Theorem deserialize_rejects_non_objects (int_of_str : string → option Z) (v : pyval) :
  (∀ kvs, v ≠ PyDict kvs) →
  board_of_raw int_of_str v = Raise AttributeError ∧
  to_cat int_of_str v = Raise TypeError ∧
  to_q int_of_str v = Raise TypeError ∧
  to_media v = Raise TypeError.
Proof.
  intros Hv. destruct v as [ | b | n | s | l | kvs ]; try done.
  by destruct (Hv kvs).
Qed.

Lemma deserialize_rejects_non_objects_witness :
  deserialize_board Json.loads Json.int_of_str (Json.dumps (PyList [PyInt 1; PyInt 2]))
  = Raise AttributeError.
Proof.
  unfold deserialize_board.
  replace (Json.loads (Json.dumps (PyList [PyInt 1; PyInt 2])))
    with (Some (PyList [PyInt 1; PyInt 2])) by (vm_compute; reflexivity).
  apply (deserialize_rejects_non_objects Json.int_of_str (PyList [PyInt 1; PyInt 2])).
  discriminate.
Defined.

(** The keys each converter reads. *)
Definition media_keys : list string :=
  ["kind"; "source"; "filename"; "mime"; "b64"; "url"].
Definition question_keys : list string :=
  ["id"; "points"; "prompt"; "answer"; "media"; "timer_seconds"].
Definition category_keys : list string := ["id"; "name"; "questions"].
Definition board_keys : list string := ["title"; "categories"].

Definition same_on (keys : list string) (kvs1 kvs2 : list (string * pyval)) : Prop :=
  ∀ k, k ∈ keys → dict_lookup k kvs1 = dict_lookup k kvs2.

(** X3.  Nothing but the named keys is read.  Two objects that bind the keys
    a converter reads to the same values are converted alike, whatever other
    keys they hold and in whatever order the keys come. *)
Theorem deserialize_reads_named_keys (int_of_str : string → option Z)
    (kvs1 kvs2 : list (string * pyval)) :
  (same_on media_keys kvs1 kvs2 → to_media (PyDict kvs1) = to_media (PyDict kvs2)) ∧
  (same_on question_keys kvs1 kvs2 →
     to_q int_of_str (PyDict kvs1) = to_q int_of_str (PyDict kvs2)) ∧
  (same_on category_keys kvs1 kvs2 →
     to_cat int_of_str (PyDict kvs1) = to_cat int_of_str (PyDict kvs2)) ∧
  (same_on board_keys kvs1 kvs2 →
     board_of_raw int_of_str (PyDict kvs1) = board_of_raw int_of_str (PyDict kvs2)).
Proof.
  unfold same_on, media_keys, question_keys, category_keys, board_keys.
  repeat split; intros H;
    unfold to_media, to_q, to_cat, board_of_raw, py_getitem, py_get;
    rewrite ?(H "kind"), ?(H "source"), ?(H "filename"), ?(H "mime"), ?(H "b64"),
      ?(H "url"), ?(H "id"), ?(H "points"), ?(H "prompt"), ?(H "answer"),
      ?(H "media"), ?(H "timer_seconds"), ?(H "name"), ?(H "questions"),
      ?(H "title"), ?(H "categories") by set_solver;
    reflexivity.
Qed.

Lemma deserialize_reads_named_keys_witness :
  board_of_raw Json.int_of_str
    (PyDict [("version", PyInt 2); ("categories", PyList []); ("title", PyStr "T")])
  = board_of_raw Json.int_of_str
      (PyDict [("title", PyStr "T"); ("categories", PyList [])]).
Proof.
  apply (proj2 (proj2 (proj2 (deserialize_reads_named_keys Json.int_of_str _ _)))).
  intros k Hk. unfold board_keys in Hk.
  apply elem_of_cons in Hk as [-> | Hk]; [reflexivity | ].
  apply list_elem_of_singleton in Hk as ->. reflexivity.
Defined.

(** X4.  A [categories] value that is not a list.  [for c in ...] also
    iterates over a str (its characters) and a dict (its keys), so the empty
    string and the empty object pass as "no categories"; every other value
    that is not a list ends in [TypeError]. *)
Theorem deserialize_categories_not_a_list (int_of_str : string → option Z)
    (kvs : list (string * pyval)) (v : pyval) :
  dict_lookup "categories" kvs = Some v →
  (∀ l, v ≠ PyList l) →
  (v = PyStr "" ∨ v = PyDict [] →
     board_of_raw int_of_str (PyDict kvs)
       = Ok (mkBoard (default (PyStr "Jeopardy!") (dict_lookup "title" kvs)) [])) ∧
  (v ≠ PyStr "" → v ≠ PyDict [] →
     board_of_raw int_of_str (PyDict kvs) = Raise TypeError).
Proof.
  intros Hv Hlist. unfold board_of_raw, py_get. rewrite Hv. simpl. split.
  - by intros [-> | ->].
  - intros Hstr Hdict. destruct v as [ | b | n | s | l | kvs' ]; try done.
    + destruct s as [ | c s ]; [done | ]. reflexivity.
    + by destruct (Hlist l).
    + cbn [py_iter bind]. destruct (dict_keys kvs') as [ | k ks ] eqn:E.
      * destruct kvs' as [ | [k v] kvs' ]; [done | ].
        assert (k ∈ dict_keys ((k, v) :: kvs')) as Hin
          by (apply elem_of_remove_dups; left).
        rewrite E in Hin. by apply not_elem_of_nil in Hin.
      * reflexivity.
Qed.

Lemma deserialize_categories_not_a_list_witness :
  board_of_raw Json.int_of_str (PyDict [("title", PyStr "T"); ("categories", PyStr "")])
    = Ok (mkBoard (PyStr "T") []) ∧
  board_of_raw Json.int_of_str (PyDict [("title", PyStr "T"); ("categories", PyInt 3)])
    = Raise TypeError.
Proof.
  split.
  - apply (proj1 (deserialize_categories_not_a_list Json.int_of_str
      [("title", PyStr "T"); ("categories", PyStr "")] (PyStr "") eq_refl
      ltac:(discriminate))).
    by left.
  - apply (proj2 (deserialize_categories_not_a_list Json.int_of_str
      [("title", PyStr "T"); ("categories", PyInt 3)] (PyInt 3) eq_refl
      ltac:(discriminate))); discriminate.
Defined.

(** X5.  A document with a list of categories loads exactly when every
    entry converts, and then the board has the converted categories in the
    order and number of the document; likewise the questions of a category
    and the media of a question. *)
Theorem deserialize_keeps_order (int_of_str : string → option Z)
    (kvs : list (string * pyval)) (cs : list pyval) :
  dict_lookup "categories" kvs = Some (PyList cs) →
  ∀ b, board_of_raw int_of_str (PyDict kvs) = Ok b ↔
       title b = default (PyStr "Jeopardy!") (dict_lookup "title" kvs) ∧
       Forall2 (λ c c', to_cat int_of_str c = Ok c') cs (categories b).
Proof.
  intros Hcs b. unfold board_of_raw, py_get. rewrite Hcs. simpl.
  destruct (comprehension (to_cat int_of_str) cs) as [cats | e] eqn:E; simpl.
  - apply comprehension_Ok in E. split.
    + by intros [= <-].
    + intros [Ht Hall]. destruct b as [t cats']. simpl in *. subst t.
      apply comprehension_Ok in E, Hall. congruence.
  - split; [done | ]. intros [_ Hall]. apply comprehension_Ok in Hall. congruence.
Qed.

Lemma deserialize_keeps_order_witness :
  let b := board_value sample_board in
  Forall2 (λ c c', to_cat Json.int_of_str c = Ok c')
    (asdict_category <$> categories b) (categories b).
Proof.
  intros b.
  apply (proj1 (deserialize_keeps_order Json.int_of_str
    [("title", title b); ("categories", PyList (asdict_category <$> categories b))]
    (asdict_category <$> categories b) eq_refl b)).
  vm_compute. reflexivity.
Defined.


(** ** Loading: saved boards and reruns *)

Section LoadReruns.

Variable json_dumps : pyval → string.
Variable json_loads : string → option pyval.
Variable int_of_str : string → option Z.
Variable utf8_decode : list Byte.byte → option string.

Let load := load_board json_loads int_of_str utf8_decode.

(** X7.  Loading what was saved.  An upload whose bytes decode to the text
    that [serialize_board] wrote for [b] replaces the board by [b] and is
    remembered as processed.  The used set, the active question, the reveal
    flag and the scoreboard are carried over from the session as they are;
    nothing resets them. *)
Theorem load_saved_board (st : PyState) (up : UploadedFile) (b : PyBoard) :
  upload_board_last st ≠ Some (upload_id up) →
  utf8_decode (upload_bytes up) = Some (serialize_board json_dumps b) →
  json_loads (json_dumps (asdict b)) = Some (asdict b) →
  load st (Some up) =
    (mkState b (used_qids st) (active_qid st) (reveal_answer st)
       (scores st) (team_colors st) (Some (upload_id up)),
     Some BoardLoaded).
Proof.
  intros Hnew Hdec Hlib. unfold load, load_board, read_upload.
  rewrite bool_decide_eq_false_2 by done. rewrite Hdec.
  unfold deserialize_board, serialize_board. by rewrite Hlib, board_of_raw_asdict.
Qed.

(** X8.  Reruns.  While the uploader still holds the file the load block runs
    again on every rerun.  After a successful load, any upload with the same
    name and the same size, whatever its bytes, is skipped: the state stays
    and nothing is shown.  After a failed load nothing was recorded, so the
    same upload is read again and fails in the same way. *)
Theorem load_board_rerun (st : PyState) (up up' : UploadedFile) :
  (upload_name up' = upload_name up →
   length (upload_bytes up') = length (upload_bytes up) →
   (load st (Some up)).2 = Some BoardLoaded →
     load (load st (Some up)).1 (Some up') = ((load st (Some up)).1, None)) ∧
  (∀ e, (load st (Some up)).2 = Some (FailedToLoad e) →
     load (load st (Some up)).1 (Some up) = (st, Some (FailedToLoad e))).
Proof.
  split.
  - intros Hname Hsize. unfold load, load_board.
    assert (upload_id up' = upload_id up) as Hid
      by (unfold upload_id; by rewrite Hname, Hsize).
    case_bool_decide as Hlast; [done | ].
    destruct (read_upload _ _ _ up) as [newb | e]; [ | done]. simpl. intros _.
    by rewrite Hid, bool_decide_eq_true_2.
  - intros e. unfold load, load_board.
    case_bool_decide as Hlast; [done | ].
    destruct (read_upload _ _ _ up) as [newb | e'] eqn:E; [done | ]. simpl.
    intros [= ->]. by rewrite bool_decide_eq_false_2.
Qed.

End LoadReruns.

Lemma load_saved_board_witness :
  let b := board_value sample_board in
  let up := upload_of "saved.json" (asdict b) in
  let st := mkState (board_value new_board) {[PyStr "q-old"]} (Some (PyStr "q-old"))
              true ∅ ∅ None : PyState in
  load_board Json.loads Json.int_of_str Json.ascii_decode st (Some up) =
    (mkState b {[PyStr "q-old"]} (Some (PyStr "q-old")) true ∅ ∅ (Some (upload_id up)),
     Some BoardLoaded).
Proof.
  intros b up st.
  apply (load_saved_board Json.dumps Json.loads Json.int_of_str Json.ascii_decode st up b).
  - discriminate.
  - vm_compute. reflexivity.
  - vm_compute. reflexivity.
Defined.

(** An upload with the name and size of the saved sample board and other
    bytes. *)
Definition same_size_upload : UploadedFile :=
  mkUploadedFile "saved.json"
    (replicate (length (upload_bytes (upload_of "saved.json" (asdict (board_value sample_board)))))
       Byte.x20).

Lemma load_board_rerun_witness :
  let load := load_board Json.loads Json.int_of_str Json.ascii_decode in
  let up := upload_of "saved.json" (asdict (board_value sample_board)) in
  let bad := upload_of "broken.json" document_without_question_id in
  load (load loaded_session (Some up)).1 (Some same_size_upload)
    = ((load loaded_session (Some up)).1, None) ∧
  load (load loaded_session (Some bad)).1 (Some bad)
    = (loaded_session, Some (FailedToLoad (KeyError "id"))).
Proof.
  intros load up bad. split.
  - apply (proj1 (load_board_rerun Json.loads Json.int_of_str Json.ascii_decode
                    loaded_session up same_size_upload)).
    + reflexivity.
    + vm_compute. reflexivity.
    + vm_compute. reflexivity.
  - apply (proj2 (load_board_rerun Json.loads Json.int_of_str Json.ascii_decode
                    loaded_session bad bad)).
    vm_compute. reflexivity.
Defined.

(** ** Lookup: [find_question] and [category_by_id] *)

(** [category_by_id]: the first category, in board order, with this id. *)
Definition category_by_id (b : StrBoard) (cid : string) : option StrCategory :=
  find (λ c, bool_decide (category_id c = cid)) (categories b).

Lemma find_has_id_None (qid : string) (qs : list StrQuestion) :
  find (has_id qid) qs = None ↔ ∀ q, q ∈ qs → question_id q ≠ qid.
Proof.
  induction qs as [ | q0 qs IH ]; simpl.
  - split; [intros _ q Hq; by apply not_elem_of_nil in Hq | done].
  - unfold has_id at 1. case_bool_decide as Hid.
    + split; [done | ]. intros H. destruct (H q0); [left | done].
    + rewrite IH. split.
      * intros H q [-> | Hq]%elem_of_cons; [done | by apply H].
      * intros H q Hq. apply H. by right.
Qed.

Lemma find_question_sound (b : StrBoard) (qid : string) (cat : StrCategory) (q : StrQuestion) :
  find_question b qid = Some (cat, q) →
  cat ∈ categories b ∧ q ∈ questions cat ∧ question_id q = qid.
Proof.
  unfold find_question. intros H.
  destruct (find_question_in_Some _ _ _ _ H) as (before & after & -> & _ & Hq).
  destruct (find_has_id _ _ _ Hq) as [Hid Hin].
  split; [ | done]. apply elem_of_app. right. left.
Qed.

Lemma find_question_None (b : StrBoard) (qid : string) :
  find_question b qid = None ↔
  ∀ cat q, cat ∈ categories b → q ∈ questions cat → question_id q ≠ qid.
Proof.
  unfold find_question. induction (categories b) as [ | c cats IH ]; simpl.
  - split; [intros _ cat q Hc; by apply not_elem_of_nil in Hc | done].
  - destruct (find (has_id qid) (questions c)) as [q0 | ] eqn:E.
    + split; [done | ]. intros H.
      destruct (find_has_id _ _ _ E) as [Hid Hin].
      destruct (H c q0); [left | done | done].
    + rewrite IH. split.
      * intros H cat q [-> | Hc]%elem_of_cons Hq.
        -- by apply (proj1 (find_has_id_None qid (questions c)) E).
        -- by apply (H cat q).
      * intros H cat q Hc. apply H. by right.
Qed.

(** X9.  [find_question] is sound and complete: what it returns is a
    category of the board and a question of that category with the asked id,
    and it returns nothing exactly when no question on the board has the
    id. *)
Theorem find_question_spec (b : StrBoard) (qid : string) :
  (∀ cat q, find_question b qid = Some (cat, q) →
     cat ∈ categories b ∧ q ∈ questions cat ∧ question_id q = qid) ∧
  (find_question b qid = None ↔
     ∀ cat q, cat ∈ categories b → q ∈ questions cat → question_id q ≠ qid).
Proof.
  split.
  - intros cat q. apply find_question_sound.
  - apply find_question_None.
Qed.

Lemma find_question_spec_witness :
  find_question sample_board "q-2" ≠ None ∧ find_question sample_board "q-7" = None.
Proof.
  split; [discriminate | ].
  apply (proj2 (find_question_spec sample_board "q-7")).
  intros cat q Hc Hq. simpl in Hc.
  apply elem_of_cons in Hc as [-> | Hc].
  - simpl in Hq. apply elem_of_cons in Hq as [-> | Hq]; [discriminate | ].
    apply list_elem_of_singleton in Hq as ->. discriminate.
  - apply list_elem_of_singleton in Hc as ->. simpl in Hq.
    by apply not_elem_of_nil in Hq.
Defined.

Lemma category_by_id_facts (b : StrBoard) (cid : string) :
  (∀ cat, category_by_id b cid = Some cat →
     category_id cat = cid ∧
     ∃ before after, categories b = before ++ cat :: after ∧
       ∀ c, c ∈ before → category_id c ≠ cid) ∧
  (category_by_id b cid = None ↔ ∀ c, c ∈ categories b → category_id c ≠ cid).
Proof.
  unfold category_by_id. induction (categories b) as [ | c cats [IH1 IH2] ]; simpl.
  - split; [done | ]. split; [intros _ c Hc; by apply not_elem_of_nil in Hc | done].
  - case_bool_decide as Hid.
    + split.
      * intros cat [= <-]. split; [done | ]. exists [], cats. split; [done | ].
        intros c' Hc'. by apply not_elem_of_nil in Hc'.
      * split; [done | ]. intros H. destruct (H c); [left | done].
    + split.
      * intros cat Hcat. destruct (IH1 cat Hcat) as (Hc & before & after & -> & Hb).
        split; [done | ]. exists (c :: before), after. split; [done | ].
        intros c' [-> | Hc']%elem_of_cons; [done | by apply Hb].
      * rewrite IH2. split.
        -- intros H c' [-> | Hc']%elem_of_cons; [done | by apply H].
        -- intros H c' Hc'. apply H. by right.
Qed.

(** X10.  [category_by_id] likewise: it returns a category of the board with
    the asked id, the first one, and nothing exactly when no category has
    the id. *)
Theorem category_by_id_spec (b : StrBoard) (cid : string) :
  (∀ cat, category_by_id b cid = Some cat →
     category_id cat = cid ∧ cat ∈ categories b ∧
     ∃ before after, categories b = before ++ cat :: after ∧
       ∀ c, c ∈ before → category_id c ≠ cid) ∧
  (category_by_id b cid = None ↔ ∀ c, c ∈ categories b → category_id c ≠ cid).
Proof.
  destruct (category_by_id_facts b cid) as [Hsome Hnone]. split; [ | exact Hnone].
  intros cat Hcat. destruct (Hsome cat Hcat) as (Hid & before & after & Hcats & Hb).
  split; [done | ]. split; [ | by exists before, after].
  rewrite Hcats. apply elem_of_app. right. left.
Qed.

Lemma category_by_id_spec_witness :
  category_by_id sample_board "c-2" = Some (mkCategory "c-2" "Science" []) ∧
  category_id (mkCategory "c-2" "Science" [] : StrCategory) = "c-2".
Proof.
  split; [reflexivity | ].
  apply (proj1 (category_by_id_spec sample_board "c-2") _ eq_refl).
Defined.

(** ** Trimming *)

Definition chars (s : string) : list ascii := String.list_ascii_of_string s.

Definition blank (l : list ascii) : Prop := Forall (λ c, py_isspace c = true) l.

(** A list of characters that does not begin with white space. *)
Definition tight (l : list ascii) : Prop :=
  match l with [] => True | c :: _ => py_isspace c = false end.

Fixpoint drop_blank (l : list ascii) : list ascii :=
  match l with
  | c :: l' => if py_isspace c then drop_blank l' else l
  | [] => []
  end.

Lemma chars_inj (s1 s2 : string) : chars s1 = chars s2 → s1 = s2.
Proof.
  intros H. rewrite <- (String.string_of_list_ascii_of_string s1),
    <- (String.string_of_list_ascii_of_string s2). unfold chars in H. by rewrite H.
Qed.

Lemma chars_of_list (l : list ascii) : chars (String.string_of_list_ascii l) = l.
Proof. apply String.list_ascii_of_string_of_list_ascii. Qed.

Lemma chars_app (s1 s2 : string) : chars (s1 +:+ s2) = chars s1 ++ chars s2.
Proof. induction s1 as [ | c s1 IH ]; simpl; [done | by rewrite <- IH]. Qed.

Lemma chars_lstrip (s : string) : chars (lstrip s) = drop_blank (chars s).
Proof.
  induction s as [ | c s IH ]; simpl; [done | ]. by destruct (py_isspace c).
Qed.

Lemma chars_rev_app (s1 s2 : string) :
  chars (String.rev_app s1 s2) = reverse (chars s1) ++ chars s2.
Proof.
  revert s2. induction s1 as [ | c s1 IH ]; intros s2; simpl; [done | ].
  rewrite IH. simpl. by rewrite reverse_cons, <- (assoc_L (++)).
Qed.

Lemma chars_rev (s : string) : chars (String.rev s) = reverse (chars s).
Proof. unfold String.rev. rewrite chars_rev_app. simpl. by rewrite (right_id_L [] (++)). Qed.

Lemma chars_strip (s : string) :
  chars (strip s) = reverse (drop_blank (reverse (drop_blank (chars s)))).
Proof. unfold strip. by rewrite chars_rev, chars_lstrip, chars_rev, chars_lstrip. Qed.

Lemma drop_blank_split (l : list ascii) :
  ∃ pre, l = pre ++ drop_blank l ∧ blank pre ∧ tight (drop_blank l).
Proof.
  induction l as [ | c l (pre & Hl & Hpre & Ht) ]; simpl.
  - exists []. repeat split. constructor.
  - destruct (py_isspace c) eqn:E.
    + exists (c :: pre). split; [simpl; by rewrite <- Hl | ].
      split; [by constructor | done].
    + exists []. repeat split; [constructor | done].
Qed.

Lemma drop_blank_tight (l : list ascii) : tight l → drop_blank l = l.
Proof. destruct l as [ | c l ]; simpl; [done | ]. by intros ->. Qed.

(** The list form of [strip]: white space goes from both ends, what is left
    begins and ends with other characters. *)
Lemma trim_split (l : list ascii) :
  let r := reverse (drop_blank (reverse (drop_blank l))) in
  ∃ pre post, l = pre ++ r ++ post ∧ blank pre ∧ blank post
              ∧ tight r ∧ tight (reverse r).
Proof.
  intros r. destruct (drop_blank_split l) as (pre & Hl & Hpre & Ha).
  destruct (drop_blank_split (reverse (drop_blank l))) as (post & Hb & Hpost & Hr).
  exists pre, (reverse post).
  assert (drop_blank l = r ++ reverse post) as Hsplit.
  { rewrite <- (reverse_involutive (drop_blank l)), Hb at 1.
    by rewrite reverse_app. }
  split; [by rewrite <- Hsplit | ]. split; [done | ].
  split; [by apply Forall_reverse | ]. split.
  - rewrite Hsplit in Ha. unfold r in *.
    destruct (reverse (drop_blank (reverse (drop_blank l)))); [done | exact Ha].
  - unfold r. by rewrite reverse_involutive.
Qed.

Lemma trim_tight (l : list ascii) :
  tight l → tight (reverse l) → reverse (drop_blank (reverse (drop_blank l))) = l.
Proof.
  intros H1 H2. by rewrite (drop_blank_tight l), (drop_blank_tight (reverse l)),
    reverse_involutive.
Qed.

(** [s.strip()] takes white space, and nothing else, from both ends of [s];
    the result neither begins nor ends with white space, so stripping again
    changes nothing. *)
Lemma strip_spec (s : string) :
  (∃ pre post, s = pre +:+ strip s +:+ post ∧ blank (chars pre) ∧ blank (chars post)) ∧
  (∀ c t, strip s = String c t → py_isspace c = false) ∧
  (∀ t c, strip s = t +:+ String c "" → py_isspace c = false) ∧
  strip (strip s) = strip s.
Proof.
  destruct (trim_split (chars s)) as (pre & post & Hs & Hpre & Hpost & Ht & Hrt).
  rewrite <- chars_strip in Hs, Ht, Hrt. split; [ | split; [ | split]].
  - exists (String.string_of_list_ascii pre), (String.string_of_list_ascii post).
    rewrite !chars_of_list. split; [ | done].
    apply chars_inj. by rewrite !chars_app, !chars_of_list.
  - intros c t E. rewrite E in Ht. exact Ht.
  - intros t c E. rewrite E, chars_app, reverse_app in Hrt. exact Hrt.
  - apply chars_inj. rewrite (chars_strip (strip s)). by apply trim_tight.
Qed.


(** ** Editing the board *)

(** The callback of "Add Category": [new_cat_name] is what the text input
    holds, [uuid] what [str(uuid.uuid4())] returns. *)
Definition add_category (b : StrBoard) (new_cat_name uuid : string) : StrBoard :=
  let name := strip new_cat_name in
  if str_truthy name
  then set_categories (categories b ++ [mkCategory uuid name []]) b
  else b.

(** [cat.questions.append(q)] on the category that [category_by_id]
    returns. *)
Fixpoint append_question (cid : string) (q : StrQuestion) (cats : list StrCategory)
  : list StrCategory :=
  match cats with
  | [] => []
  | c :: rest =>
      if bool_decide (category_id c = cid)
      then set_questions (questions c ++ [q]) c :: rest
      else c :: append_question cid q rest
  end.

(** "Add Question to Category".  [category_by_id(...)] may be [None], and
    then [.questions] raises. *)
Definition add_question (b : StrBoard) (chosen_cid uuid : string) (pts : Z)
    (prompt_text answer_text : string) (items : list StrMediaItem)
    (timer_for_new : Z) : result StrBoard :=
  let q := mkQuestion uuid pts prompt_text answer_text items timer_for_new in
  match category_by_id b chosen_cid with
  | Some _ => Ok (set_categories (append_question chosen_cid q (categories b)) b)
  | None => Raise AttributeError
  end.

(** "Apply Changes" for the id chosen in the select box: the found question
    gets new points, prompt, answer and timer; its id and media stay. *)
Definition apply_changes (b : StrBoard) (qid : string) (new_points : Z)
    (new_prompt new_answer : string) (new_timer : Z) : StrBoard :=
  match find_question b qid with
  | Some _ =>
      let edit q :=
        mkQuestion (question_id q) new_points new_prompt new_answer (media q) new_timer in
      let store c := set_questions (update_first qid edit (questions c)) c in
      set_categories (update_found qid store (categories b)) b
  | None => b
  end.

(** The ids of all questions of the board, in board order. *)
Definition question_ids (b : StrBoard) : list string :=
  categories b ≫= (λ c, question_id <$> questions c).

(** *** Facts about in-place updates *)

Lemma find_question_in_app (cats1 cats2 : list StrCategory) (qid : string) :
  find_question_in (cats1 ++ cats2) qid =
    match find_question_in cats1 qid with
    | Some r => Some r
    | None => find_question_in cats2 qid
    end.
Proof.
  induction cats1 as [ | c cats1 IH ]; simpl; [done | ].
  by destruct (find (has_id qid) (questions c)).
Qed.

Lemma find_update_first_ne (qid qid' : string) (g : StrQuestion → StrQuestion)
    (qs : list StrQuestion) :
  qid' ≠ qid → (∀ x, question_id (g x) = question_id x) →
  find (has_id qid') (update_first qid g qs) = find (has_id qid') qs.
Proof.
  intros Hne Hg. induction qs as [ | q qs IH ]; simpl; [done | ].
  destruct (has_id qid q) eqn:E; simpl.
  - unfold has_id in *. apply bool_decide_eq_true_1 in E.
    rewrite Hg. by rewrite !bool_decide_eq_false_2 by congruence.
  - by rewrite IH.
Qed.

Lemma ids_update_first (qid : string) (g : StrQuestion → StrQuestion)
    (qs : list StrQuestion) :
  (∀ x, question_id (g x) = question_id x) →
  question_id <$> update_first qid g qs = question_id <$> qs.
Proof.
  intros Hg. induction qs as [ | q qs IH ]; [done | ]. cbn [update_first].
  destruct (has_id qid q); rewrite !fmap_cons; [by rewrite Hg | by rewrite IH].
Qed.

Section UpdateFound.

Variables (qid : string) (g : StrQuestion → StrQuestion).
Hypothesis g_keeps_id : ∀ x, question_id (g x) = question_id x.

Let store (c : StrCategory) : StrCategory :=
  set_questions (update_first qid g (questions c)) c.

Lemma find_after_store_ne (cats : list StrCategory) (qid' : string) :
  qid' ≠ qid →
  snd <$> find_question_in (update_found qid store cats) qid'
    = snd <$> find_question_in cats qid'.
Proof.
  intros Hne. induction cats as [ | c cats IH ]; simpl; [done | ].
  destruct (find (has_id qid) (questions c)) as [q0 | ] eqn:E; simpl.
  - unfold store at 1. simpl. rewrite find_update_first_ne by done.
    by destruct (find (has_id qid') (questions c)).
  - destruct (find (has_id qid') (questions c)); [done | exact IH].
Qed.

Lemma find_after_store (cats : list StrCategory) (cat : StrCategory) (q : StrQuestion) :
  find_question_in cats qid = Some (cat, q) →
  find_question_in (update_found qid store cats) qid = Some (store cat, g q).
Proof.
  intros H. destruct (find_question_in_Some _ _ _ _ H) as (before & after & -> & Hb & Hq).
  rewrite (update_found_split before after qid store cat q Hb Hq).
  apply find_question_in_split; [done | ]. unfold store. simpl.
  by apply find_update_first.
Qed.

Lemma ids_after_store (cats : list StrCategory) :
  update_found qid store cats ≫= (λ c, question_id <$> questions c)
    = cats ≫= (λ c, question_id <$> questions c).
Proof.
  induction cats as [ | c cats IH ]; [done | ]. cbn [update_found].
  destruct (find (has_id qid) (questions c)); rewrite !bind_cons.
  - unfold store. simpl. by rewrite ids_update_first.
  - by rewrite IH.
Qed.

End UpdateFound.

Lemma find_app_questions (qid : string) (qs1 qs2 : list StrQuestion) :
  find (has_id qid) (qs1 ++ qs2) =
    match find (has_id qid) qs1 with Some q => Some q | None => find (has_id qid) qs2 end.
Proof.
  induction qs1 as [ | q qs1 IH ]; simpl; [done | ]. by destruct (has_id qid q).
Qed.

Lemma find_question_None_ids (b : StrBoard) (qid : string) :
  find_question b qid = None ↔ qid ∉ question_ids b.
Proof.
  rewrite find_question_None. unfold question_ids.
  rewrite list_elem_of_bind. split.
  - intros H (c & Hq & Hc). apply list_elem_of_fmap in Hq as (q & -> & Hq).
    by apply (H c q).
  - intros H c q Hc Hq Hid. apply H. exists c. split; [ | done].
    apply list_elem_of_fmap. by exists q.
Qed.

(** X12.  "Add Category".  A name that is empty after trimming changes
    nothing.  Otherwise the new category, with the trimmed name and no
    questions, is appended after the existing ones, which stay as they are;
    every question is found as before and the board shows one more, empty,
    column. *)
Theorem add_category_spec (b : StrBoard) (new_cat_name uuid : string) :
  (strip new_cat_name = "" → add_category b new_cat_name uuid = b) ∧
  (strip new_cat_name ≠ "" →
     let b' := add_category b new_cat_name uuid in
     title b' = title b ∧
     categories b' = categories b ++ [mkCategory uuid (strip new_cat_name) []] ∧
     (∀ qid, find_question b' qid = find_question b qid) ∧
     sorted_qs b' = sorted_qs b ++ [[]]).
Proof.
  unfold add_category. split.
  - by intros ->.
  - intros Hname. rewrite (str_truthy_nonempty _ Hname). simpl.
    split; [done | ]. split; [done | ]. split.
    + intros qid. unfold find_question. simpl. rewrite find_question_in_app. simpl.
      by destruct (find_question_in (categories b) qid).
    + unfold sorted_qs. simpl. by rewrite fmap_app.
Qed.

Lemma add_category_spec_witness :
  add_category sample_board "   " "c-3" = sample_board ∧
  categories (add_category sample_board " Art " "c-3")
    = categories sample_board ++ [mkCategory "c-3" "Art" []].
Proof.
  split.
  - apply (proj1 (add_category_spec sample_board "   " "c-3")). reflexivity.
  - apply (proj2 (add_category_spec sample_board " Art " "c-3")). discriminate.
Defined.

Lemma append_question_split (cid : string) (q : StrQuestion)
    (before after : list StrCategory) (cat : StrCategory) :
  (∀ c, c ∈ before → category_id c ≠ cid) → category_id cat = cid →
  append_question cid q (before ++ cat :: after)
    = before ++ set_questions (questions cat ++ [q]) cat :: after.
Proof.
  intros Hb Hcat. induction before as [ | c before IH ]; simpl.
  - by rewrite bool_decide_eq_true_2.
  - rewrite bool_decide_eq_false_2 by (apply Hb; left).
    rewrite IH; [done | ]. intros c' Hc'. apply Hb. by right.
Qed.

(** X13.  "Add Question to Category".  With the id of a category of the
    board the question is appended to the question list of the first
    category with that id, and nothing else changes.  When the new id is not
    yet on the board, the new question is found by it and every other id
    finds the question it found before.  Without such a category the call
    raises [AttributeError]. *)
Theorem add_question_spec (b : StrBoard) (chosen_cid uuid : string) (pts : Z)
    (prompt_text answer_text : string) (items : list StrMediaItem) (timer_for_new : Z) :
  let q := mkQuestion uuid pts prompt_text answer_text items timer_for_new in
  (∀ cat, category_by_id b chosen_cid = Some cat →
     ∃ before after b',
       categories b = before ++ cat :: after ∧
       add_question b chosen_cid uuid pts prompt_text answer_text items timer_for_new
         = Ok b' ∧
       title b' = title b ∧
       categories b' = before ++ set_questions (questions cat ++ [q]) cat :: after ∧
       (find_question b uuid = None →
          find_question b' uuid = Some (set_questions (questions cat ++ [q]) cat, q) ∧
          ∀ qid, qid ≠ uuid →
            snd <$> find_question b' qid = snd <$> find_question b qid)) ∧
  (category_by_id b chosen_cid = None →
     add_question b chosen_cid uuid pts prompt_text answer_text items timer_for_new
       = Raise AttributeError).
Proof.
  intros q. split.
  - intros cat Hcat.
    destruct (proj1 (category_by_id_facts b chosen_cid) cat Hcat)
      as (Hid & before & after & Hcats & Hb).
    exists before, after. eexists. split; [done | ].
    unfold add_question. rewrite Hcat. split; [done | ]. simpl.
    split; [done | ]. rewrite Hcats, (append_question_split _ _ _ _ _ Hb Hid).
    split; [done | ]. intros Hfresh.
    pose proof (proj1 (find_question_None b uuid) Hfresh) as Hnone.
    rewrite Hcats in Hnone. unfold find_question. simpl. split.
    + apply find_question_in_split.
      * apply list.Forall_forall. intros c Hc. apply find_has_id_None.
        intros q' Hq'. apply (Hnone c q'); [ | done]. apply elem_of_app. by left.
      * simpl. rewrite find_app_questions.
        rewrite (proj2 (find_has_id_None uuid (questions cat))).
        -- simpl. unfold has_id. by rewrite bool_decide_eq_true_2.
        -- intros q' Hq'. apply (Hnone cat q'); [ | done].
           apply elem_of_app. right. left.
    + intros qid Hne. rewrite Hcats, !find_question_in_app.
      destruct (find_question_in before qid); [done | ]. simpl.
      rewrite find_app_questions. simpl. unfold has_id at 2. simpl.
      rewrite (bool_decide_eq_false_2 (uuid = qid)) by congruence.
      by destruct (find (has_id qid) (questions cat)).
  - intros Hnone. unfold add_question. by rewrite Hnone.
Qed.

Lemma add_question_spec_witness :
  let q := mkQuestion "q-3" 300 "Q3" "A3" [] 30 : StrQuestion in
  ∃ b', add_question sample_board "c-2" "q-3" 300 "Q3" "A3" [] 30 = Ok b' ∧
        find_question b' "q-3" = Some (mkCategory "c-2" "Science" [q], q) ∧
        add_question sample_board "c-9" "q-3" 300 "Q3" "A3" [] 30 = Raise AttributeError.
Proof.
  intros q.
  destruct (add_question_spec sample_board "c-2" "q-3" 300 "Q3" "A3" [] 30)
    as [Hadd _].
  destruct (Hadd (mkCategory "c-2" "Science" []) eq_refl)
    as (before & after & b' & _ & Hb' & _ & _ & Hfind).
  exists b'. split; [exact Hb' | ]. split.
  - apply Hfind. reflexivity.
  - apply (proj2 (add_question_spec sample_board "c-9" "q-3" 300 "Q3" "A3" [] 30)).
    reflexivity.
Defined.

(** X14.  "Apply Changes".  The question found for the chosen id gets the
    new points, prompt, answer and timer and keeps its id and its media; it
    is found by the same id afterwards, every other id finds the question it
    found before, and the ids on the board are the same, in the same
    order. *)
Theorem apply_changes_spec (b : StrBoard) (qid : string) (new_points : Z)
    (new_prompt new_answer : string) (new_timer : Z) (cat : StrCategory) (q : StrQuestion) :
  find_question b qid = Some (cat, q) →
  let b' := apply_changes b qid new_points new_prompt new_answer new_timer in
  let q' := mkQuestion qid new_points new_prompt new_answer (media q) new_timer in
  (∃ cat', find_question b' qid = Some (cat', q')) ∧
  (∀ qid', qid' ≠ qid → snd <$> find_question b' qid' = snd <$> find_question b qid') ∧
  question_ids b' = question_ids b ∧
  title b' = title b.
Proof.
  intros Hfind. unfold apply_changes. rewrite Hfind. simpl.
  destruct (find_question_sound b qid cat q Hfind) as (_ & _ & Hid).
  unfold find_question, question_ids. simpl. split; [ | split; [ | split]].
  - eexists.
    rewrite (find_after_store qid
      (λ x, mkQuestion (question_id x) new_points new_prompt new_answer (media x) new_timer)
      (λ _, eq_refl) _ cat q Hfind).
    simpl. by rewrite Hid.
  - intros qid' Hne.
    by apply (find_after_store_ne qid
      (λ x, mkQuestion (question_id x) new_points new_prompt new_answer (media x) new_timer)).
  - by apply (ids_after_store qid
      (λ x, mkQuestion (question_id x) new_points new_prompt new_answer (media x) new_timer)).
  - done.
Qed.

Lemma apply_changes_spec_witness :
  ∃ cat', find_question (apply_changes sample_board "q-2" 800 "Q2b" "A2b" 60) "q-2"
            = Some (cat', mkQuestion "q-2" 800 "Q2b" "A2b" [] 60).
Proof.
  apply (apply_changes_spec sample_board "q-2" 800 "Q2b" "A2b" 60
           (hd (mkCategory "" "" []) (categories sample_board))
           (mkQuestion "q-2" 500 "Q2" "A2" [] 45) eq_refl).
Defined.

(** *** Unique ids *)

Lemma ids_update_found_sublist (qid : string) (f : StrCategory → StrCategory)
    (cats : list StrCategory) :
  (∀ c, (question_id <$> questions (f c)) `sublist_of` (question_id <$> questions c)) →
  (update_found qid f cats ≫= (λ c, question_id <$> questions c))
    `sublist_of` (cats ≫= (λ c, question_id <$> questions c)).
Proof.
  intros Hf. induction cats as [ | c cats IH ]; [done | ]. cbn [update_found].
  destruct (find (has_id qid) (questions c)); rewrite !bind_cons.
  - by apply sublist_app.
  - by apply sublist_app.
Qed.

Lemma ids_append_question (cid : string) (q : StrQuestion) (cats : list StrCategory) :
  (∃ c, c ∈ cats ∧ category_id c = cid) →
  append_question cid q cats ≫= (λ c, question_id <$> questions c)
    ≡ₚ question_id q :: (cats ≫= (λ c, question_id <$> questions c)).
Proof.
  induction cats as [ | c cats IH ]; intros (c0 & Hc0 & Hid).
  - by apply not_elem_of_nil in Hc0.
  - cbn [append_question]. case_bool_decide as Hc; rewrite !bind_cons.
    + simpl. rewrite fmap_app. simpl.
      rewrite <- (assoc_L (++)). simpl. by rewrite <- Permutation_middle.
    + apply elem_of_cons in Hc0 as [-> | Hc0]; [done | ].
      rewrite IH by (by exists c0). by rewrite <- Permutation_middle.
Qed.

(** X15.  Question ids stay unique.  On a board whose question ids are
    pairwise different, removing a category, deleting a question, applying
    changes, running the timer and adding a category keep them so, and so
    does adding a question whose new id is not on the board. *)
Theorem unique_ids_preserved (st : StrState) :
  NoDup (question_ids (board st)) →
  (∀ cat, NoDup (question_ids (board (remove_category st cat)))) ∧
  (∀ qid, NoDup (question_ids (board (delete_question st qid)))) ∧
  (∀ qid p pr a t, NoDup (question_ids (apply_changes (board st) qid p pr a t))) ∧
  (∀ timer_val, NoDup (question_ids (board (start_timer st timer_val).1))) ∧
  (∀ n uuid, NoDup (question_ids (add_category (board st) n uuid))) ∧
  (∀ cid uuid p pr a ms t b',
     uuid ∉ question_ids (board st) →
     add_question (board st) cid uuid p pr a ms t = Ok b' →
     NoDup (question_ids b')).
Proof.
  intros Hnodup. unfold question_ids in *. repeat split.
  - intros cat. unfold remove_category. simpl.
    eapply sublist_NoDup; [exact Hnodup | ].
    apply bind_sublist, sublist_filter.
  - intros qid. unfold delete_question.
    destruct (find_question (board st) qid) as [[cat q] | ]; [ | done]. simpl.
    eapply sublist_NoDup; [exact Hnodup | ].
    apply ids_update_found_sublist. intros c. simpl.
    apply fmap_sublist, sublist_filter.
  - intros qid p pr a t. unfold apply_changes.
    destruct (find_question (board st) qid); [ | done]. simpl.
    by rewrite (ids_after_store qid
      (λ x, mkQuestion (question_id x) p pr a (media x) t)).
  - intros timer_val. unfold start_timer.
    destruct (active_question st) as [[cat q] | ]; [ | done]. simpl.
    by rewrite (ids_after_store (question_id q) (set_timer_seconds timer_val)).
  - intros n uuid. unfold add_category.
    destruct (str_truthy (strip n)); [ | done]. simpl.
    rewrite bind_app. simpl. by rewrite !(right_id_L [] (++)).
  - intros cid uuid p pr a ms t b' Hfresh. unfold add_question.
    destruct (category_by_id (board st) cid) as [cat | ] eqn:Hcat; [ | done].
    intros [= <-]. simpl.
    destruct (proj1 (category_by_id_facts _ _) cat Hcat) as (Hid & before & after & Hcats & _).
    rewrite ids_append_question.
    + apply list.NoDup_cons. by split.
    + exists cat. split; [ | done]. rewrite Hcats. apply elem_of_app. right. left.
Qed.

Lemma played_session_unique : NoDup (question_ids (board played_session)).
Proof.
  apply list.NoDup_cons. split; [ | apply NoDup_singleton].
  apply not_elem_of_cons. split; [discriminate | apply not_elem_of_nil].
Qed.

Lemma unique_ids_preserved_witness :
  NoDup (question_ids (board played_session)) ∧
  NoDup (question_ids (board (delete_question played_session "q-1"))).
Proof.
  pose proof played_session_unique as H.
  split; [exact H | ].
  apply (proj1 (proj2 (unique_ids_preserved played_session H))).
Defined.

Lemma find_filter_ne (qid qid' : string) (qs : list StrQuestion) :
  qid' ≠ qid →
  find (has_id qid') (filter (λ qq, question_id qq ≠ qid) qs) = find (has_id qid') qs.
Proof.
  intros Hne. induction qs as [ | q qs IH ]; [done | ]. rewrite filter_cons.
  case_decide as Hq; simpl.
  - by rewrite IH.
  - unfold has_id at 2. rewrite bool_decide_eq_false_2; [done | ].
    intros Hq'. apply Hne. destruct (decide (question_id q = qid)); [congruence | ].
    by destruct Hq.
Qed.

(** X16.  Deleting on a board with unique ids.  After "Delete Question" the
    id is found nowhere on the board, and every other id finds the question
    it found before. *)
Theorem delete_question_unique (st : StrState) (qid : string)
    (cat : StrCategory) (q : StrQuestion) :
  NoDup (question_ids (board st)) →
  find_question (board st) qid = Some (cat, q) →
  let b' := board (delete_question st qid) in
  find_question b' qid = None ∧
  (qid ∉ question_ids b') ∧
  ∀ qid', qid' ≠ qid → snd <$> find_question b' qid' = snd <$> find_question (board st) qid'.
Proof.
  intros Hnodup Hfind.
  destruct (find_question_sound _ _ cat q Hfind) as (_ & Hq & Hid).
  pose proof Hfind as Hfind'. unfold find_question in Hfind'.
  destruct (find_question_in_Some _ _ _ _ Hfind') as (before & after & Hcats & Hb & Hfq).
  assert (categories (board (delete_question st qid)) =
            before ++ set_questions (filter (λ qq, question_id qq ≠ qid) (questions cat)) cat
              :: after) as Hcats'.
  { unfold delete_question. rewrite Hfind. simpl. rewrite Hcats, Hid.
    by rewrite (update_found_split before after qid
      (λ c, set_questions (filter (λ qq, question_id qq ≠ qid) (questions c)) c) cat q). }
  simpl.
  assert (qid ∉ question_ids (board (delete_question st qid))) as Hnot.
  { unfold question_ids in *. rewrite Hcats'. rewrite Hcats in Hnodup.
    rewrite bind_app, bind_cons in Hnodup |- *.
    apply list.NoDup_app in Hnodup as (_ & Hdisj & Hrest).
    apply list.NoDup_app in Hrest as (_ & Hdisj' & _).
    assert (qid ∈ question_id <$> questions cat) as Hin
      by (apply list_elem_of_fmap; by exists q).
    rewrite !elem_of_app. intros [Hx | [Hx | Hx]].
    - by apply (Hdisj qid Hx), elem_of_app; left.
    - apply list_elem_of_fmap in Hx as (qq & Hqq & Hx). simpl in Hx.
      apply list_elem_of_filter in Hx as [Hx _]. by apply Hx.
    - by apply (Hdisj' qid Hin). }
  split; [by apply find_question_None_ids | ]. split; [done | ].
  intros qid' Hne. unfold find_question. rewrite Hcats', Hcats.
  rewrite !find_question_in_app. destruct (find_question_in before qid'); [done | ].
  simpl. rewrite find_filter_ne by done.
  by destruct (find (has_id qid') (questions cat)).
Qed.

Lemma delete_question_unique_witness :
  find_question (board (delete_question played_session "q-1")) "q-1" = None ∧
  snd <$> find_question (board (delete_question played_session "q-1")) "q-2"
    = Some (mkQuestion "q-2" 500 "Q2" "A2" [] 45).
Proof.
  pose proof played_session_unique as H.
  destruct (delete_question_unique played_session "q-1" history
              (mkQuestion "q-1" 100 "Q1" "A1" [] 30) H eq_refl) as (Hnone & _ & Hother).
  split; [exact Hnone | ]. rewrite (Hother "q-2"); [reflexivity | discriminate].
Defined.

Lemma strip_idempotent (s : string) : strip (strip s) = strip s.
Proof.
  destruct (trim_split (chars s)) as (_ & _ & _ & _ & _ & Ht & Hrt).
  rewrite <- chars_strip in Ht, Hrt.
  apply chars_inj. rewrite (chars_strip (strip s)). by apply trim_tight.
Qed.

(** ** Media: attaching and displaying *)

(** A file held by one of the media uploaders: [f.name], [f.type] and what
    [f.read()] returns. *)
Record UploadedMedia : Type := mkUploadedMedia {
  media_name : string;
  media_type : string;
  media_bytes : list Byte.byte
}.

Section Media.

(** [base64.b64encode(data).decode('utf-8')] *)
Variable b64encode : list Byte.byte → string.
(** [base64.b64decode(s)]; [None] stands for [binascii.Error], a
    [ValueError]. *)
Variable b64decode : string → option (list Byte.byte).

Definition uploaded_item (k : string) (f : UploadedMedia) : StrMediaItem :=
  mkMediaItem k "upload" (Some (media_name f)) (Some (media_type f))
    (Some (b64encode (media_bytes f))) None.

(** [if u.strip(): media.append(MediaItem(kind=k, source='url', url=u.strip()))] *)
Definition linked_items (k u : string) : list StrMediaItem :=
  if str_truthy (strip u)
  then [mkMediaItem k "url" None None None (Some (strip u))]
  else [].

(** The list [media] built when "Add Question to Category" is pressed:
    uploaded images, video, audio, then linked image, video, audio. *)
Definition attached_media (img_files : list UploadedMedia)
    (vid_file aud_file : option UploadedMedia) (img_url vid_url aud_url : string)
  : list StrMediaItem :=
  (uploaded_item "image" <$> img_files)
  ++ option_list (uploaded_item "video" <$> vid_file)
  ++ option_list (uploaded_item "audio" <$> aud_file)
  ++ linked_items "image" img_url
  ++ linked_items "video" vid_url
  ++ linked_items "audio" aud_url.

(** [MediaItem.to_display]: (kind, bytes or None, url or None). *)
Definition to_display (m : StrMediaItem)
  : result (string * option (list Byte.byte) * option string) :=
  let by_url := Ok (kind m, None, url m) in
  if bool_decide (source m = "upload") then
    match b64 m with
    | Some s =>
        if str_truthy s then
          match b64decode s with
          | Some data => Ok (kind m, Some data, None)
          | None => Raise ValueError
          end
        else by_url
    | None => by_url
    end
  else by_url.

(** An uploaded item carries a payload and no url; a linked item carries a
    trimmed, non-empty url and no payload. *)
Definition populated (m : StrMediaItem) : Prop :=
  (source m = "upload" ∧ is_Some (b64 m) ∧ url m = None) ∨
  (source m = "url" ∧ b64 m = None ∧ filename m = None ∧ mime m = None ∧
   ∃ u, url m = Some u ∧ u ≠ "" ∧ strip u = u).

Lemma linked_items_populated (k u : string) : Forall populated (linked_items k u).
Proof.
  unfold linked_items. destruct (str_truthy (strip u)) eqn:E; [ | constructor].
  constructor; [ | constructor]. right. simpl. repeat split.
  exists (strip u). split; [done | ]. split.
  - intros H. rewrite H in E. done.
  - apply strip_idempotent.
Qed.

Lemma option_items_populated (k : string) (f : option UploadedMedia) :
  Forall populated (option_list (uploaded_item k <$> f)).
Proof.
  destruct f as [f | ]; simpl; [ | constructor].
  constructor; [ | constructor]. left. simpl. eauto.
Qed.

Definition count_link (u : string) : nat := if str_truthy (strip u) then 1 else 0.
Definition count_file (f : option UploadedMedia) : nat :=
  match f with Some _ => 1 | None => 0 end.

(** X17.  The media list of a new question.  Every item is either an upload
    with a payload and no url, or a link with a trimmed, non-empty url and no
    payload, never both.  The list holds one item per uploaded file and one
    per url that is not blank, uploads first. *)
Theorem attached_media_spec (img_files : list UploadedMedia)
    (vid_file aud_file : option UploadedMedia) (img_url vid_url aud_url : string) :
  let items := attached_media img_files vid_file aud_file img_url vid_url aud_url in
  Forall populated items ∧
  length items =
    (length img_files + count_file vid_file + count_file aud_file
     + count_link img_url + count_link vid_url + count_link aud_url)%nat ∧
  take (length img_files) items = uploaded_item "image" <$> img_files.
Proof.
  unfold attached_media. split; [ | split].
  - repeat apply Forall_app_2;
      auto using linked_items_populated, option_items_populated.
    apply list.Forall_forall. intros m (f & -> & _)%list_elem_of_fmap.
    left. simpl. eauto.
  - rewrite !length_app, length_fmap. unfold linked_items, count_link, count_file.
    destruct vid_file, aud_file, (str_truthy (strip img_url)),
      (str_truthy (strip vid_url)), (str_truthy (strip aud_url)); simpl; lia.
  - rewrite take_app_length'; [done | by rewrite length_fmap].
Qed.

(** X18.  Displaying.  An uploaded item whose payload is not the empty
    string is shown from its decoded bytes, so a file that was uploaded comes
    back byte for byte whenever [b64decode] inverts [b64encode] on it.  A
    link is shown by its url.  An upload of an empty file has the empty
    payload and is shown as nothing.  No item is ever shown by both bytes
    and url. *)
Theorem to_display_spec (k : string) (f : UploadedMedia) (u : string) (m : StrMediaItem) :
  (b64encode (media_bytes f) ≠ "" →
   b64decode (b64encode (media_bytes f)) = Some (media_bytes f) →
     to_display (uploaded_item k f) = Ok (k, Some (media_bytes f), None)) ∧
  (b64encode (media_bytes f) = "" →
     to_display (uploaded_item k f) = Ok (k, None, None)) ∧
  (∀ x, x ∈ linked_items k u → to_display x = Ok (k, None, Some (strip u))) ∧
  (∀ k' data link, to_display m = Ok (k', data, link) →
     k' = kind m ∧ (data = None ∨ link = None)).
Proof.
  split; [ | split; [ | split]].
  - intros Hne Hinv. unfold to_display, uploaded_item. simpl.
    by rewrite (str_truthy_nonempty _ Hne), Hinv.
  - intros Hempty. unfold to_display, uploaded_item. simpl. by rewrite Hempty.
  - intros x. unfold linked_items.
    destruct (str_truthy (strip u)); [ | by intros ?%not_elem_of_nil].
    by intros ->%list_elem_of_singleton.
  - intros k' data link. unfold to_display.
    destruct (bool_decide (source m = "upload")); [ | intros [= <- <- <-]; auto].
    destruct (b64 m) as [s | ]; [ | intros [= <- <- <-]; auto].
    destruct (str_truthy s); [ | intros [= <- <- <-]; auto].
    destruct (b64decode s); [ | done]. intros [= <- <- <-]. auto.
Qed.

End Media.

(** *** A reference base64 codec, to run the media functions *)

Module Base64.

Definition alphabet : list ascii :=
  String.list_ascii_of_string
    "ABCDEFGHIJKLMNOPQRSTUVWXYZabcdefghijklmnopqrstuvwxyz0123456789+/".

Definition pad : ascii := "="%char.

Definition digit (n : N) : ascii := default pad (alphabet !! N.to_nat n).

Fixpoint encode_groups (bs : list N) : list ascii :=
  match bs with
  | a :: b :: c :: rest =>
      let n := (a * 65536 + b * 256 + c)%N in
      digit (n / 262144) :: digit (n / 4096 mod 64) :: digit (n / 64 mod 64)
        :: digit (n mod 64) :: encode_groups rest
  | [a; b] =>
      let n := (a * 65536 + b * 256)%N in
      [digit (n / 262144); digit (n / 4096 mod 64); digit (n / 64 mod 64); pad]
  | [a] =>
      let n := (a * 65536)%N in
      [digit (n / 262144); digit (n / 4096 mod 64); pad; pad]
  | [] => []
  end.

Definition encode (data : list Byte.byte) : string :=
  String.string_of_list_ascii (encode_groups (Byte.to_N <$> data)).

Definition value (c : ascii) : option N :=
  (λ r, N.of_nat r.1) <$> list_find (λ x, x = c) alphabet.

Definition bytes_of (ns : list N) : option (list Byte.byte) := mapM Byte.of_N ns.

Fixpoint decode_groups (cs : list ascii) : option (list N) :=
  match cs with
  | [] => Some []
  | a :: b :: c :: d :: rest =>
      va ← value a; vb ← value b;
      if bool_decide (d = pad) then
        if bool_decide (rest = []) then
          if bool_decide (c = pad) then
            Some [((va * 64 + vb) / 16)%N]
          else
            vc ← value c;
            let n := ((va * 64 + vb) * 64 + vc)%N in
            Some [(n / 1024)%N; (n / 4 mod 256)%N]
        else None
      else
        vc ← value c; vd ← value d;
        let n := (((va * 64 + vb) * 64 + vc) * 64 + vd)%N in
        tail ← decode_groups rest;
        Some ((n / 65536)%N :: (n / 256 mod 256)%N :: (n mod 256)%N :: tail)
  | _ => None
  end.

Definition decode (s : string) : option (list Byte.byte) :=
  decode_groups (String.list_ascii_of_string s) ≫= bytes_of.

End Base64.

Definition sample_image : UploadedMedia :=
  mkUploadedMedia "map.png" "image/png" (String.list_byte_of_string "hello world").

Example base64_sample :
  Base64.encode (media_bytes sample_image) = "aGVsbG8gd29ybGQ=" ∧
  Base64.encode (String.list_byte_of_string "ab") = "YWI=" ∧
  Base64.encode (String.list_byte_of_string "a") = "YQ==" ∧
  Base64.decode "aGVsbG8gd29ybGQ=" = Some (media_bytes sample_image).
Proof. repeat split; vm_compute; reflexivity. Qed.

Lemma to_display_spec_witness :
  to_display Base64.decode (uploaded_item Base64.encode "image" sample_image)
    = Ok ("image", Some (media_bytes sample_image), None) ∧
  to_display Base64.decode
      (uploaded_item Base64.encode "audio" (mkUploadedMedia "empty.mp3" "audio/mpeg" []))
    = Ok ("audio", None, None) ∧
  to_display Base64.decode (mkMediaItem "video" "url" None None None (Some "http://x/v.mp4"))
    = Ok ("video", None, Some "http://x/v.mp4").
Proof.
  split; [ | split].
  - apply (proj1 (to_display_spec Base64.encode Base64.decode "image" sample_image
                    "" (mkMediaItem "" "" None None None None))).
    + vm_compute. discriminate.
    + vm_compute. reflexivity.
  - apply (proj1 (proj2 (to_display_spec Base64.encode Base64.decode "audio"
                    (mkUploadedMedia "empty.mp3" "audio/mpeg" [])
                    "" (mkMediaItem "" "" None None None None)))).
    reflexivity.
  - apply (proj1 (proj2 (proj2 (to_display_spec Base64.encode Base64.decode "video"
                    sample_image " http://x/v.mp4 "
                    (mkMediaItem "" "" None None None None))))).
    vm_compute. apply list_elem_of_here.
Defined.

(** ** Playing: sequences of game intents *)

(** "Reveal All Answers (toggle)": the flag is flipped whether or not a
    question is open. *)
Definition toggle_reveal_all (st : StrState) : StrState :=
  mkState (board st) (used_qids st) (active_qid st) (negb (reveal_answer st))
    (scores st) (team_colors st) (upload_board_last st).

(** The buttons of the main area. *)
Inductive game_intent : Type :=
| Select (q : StrQuestion)
| RevealAnswer
| HideAnswer
| MarkUsed
| CloseActive
| StartTimer (timer_val : Z)
| ToggleRevealAll.

Definition play (st : StrState) (i : game_intent) : StrState :=
  match i with
  | Select q => select_question st q
  | RevealAnswer => reveal_answer_pressed st
  | HideAnswer => hide_answer_pressed st
  | MarkUsed => mark_used st
  | CloseActive => close_active st
  | StartTimer timer_val => (start_timer st timer_val).1
  | ToggleRevealAll => toggle_reveal_all st
  end.

Lemma play_step (st : StrState) (i : game_intent) :
  used_qids st ⊆ used_qids (play st i) ∧
  question_ids (board (play st i)) = question_ids (board st) ∧
  title (board (play st i)) = title (board st) ∧
  scores (play st i) = scores st ∧
  team_colors (play st i) = team_colors st ∧
  upload_board_last (play st i) = upload_board_last st.
Proof.
  destruct i as [q | | | | | timer_val | ]; simpl.
  - unfold select_question. by destruct (button_disabled st q).
  - unfold reveal_answer_pressed. by destruct (active_question st).
  - unfold hide_answer_pressed. by destruct (active_question st).
  - unfold mark_used. destruct (active_question st) as [[cat q] | ]; [ | done].
    simpl. split; [apply union_subseteq_r | done].
  - unfold close_active. by destruct (active_question st).
  - unfold start_timer. destruct (active_question st) as [[cat q] | ]; [ | done].
    simpl. split; [apply union_subseteq_r | ]. split; [ | done].
    unfold question_ids. simpl.
    apply (ids_after_store (question_id q) (set_timer_seconds timer_val)). done.
  - done.
Qed.

(** X19.  What playing never does.  Whatever buttons of the main area are
    pressed, in whatever order, no id leaves the used set, the question ids
    and the title of the board stay the same, and the scoreboard is not
    touched. *)
Theorem play_keeps (intents : list game_intent) (st : StrState) :
  let st' := foldl play st intents in
  used_qids st ⊆ used_qids st' ∧
  question_ids (board st') = question_ids (board st) ∧
  title (board st') = title (board st) ∧
  scores st' = scores st ∧
  team_colors st' = team_colors st ∧
  upload_board_last st' = upload_board_last st.
Proof.
  revert st. induction intents as [ | i intents IH ]; intros st; simpl; [done | ].
  destruct (play_step st i) as (Hu & Hi & Ht & Hs & Hc & Hl).
  destruct (IH (play st i)) as (Hu' & Hi' & Ht' & Hs' & Hc' & Hl').
  repeat split; try congruence. by transitivity (used_qids (play st i)).
Qed.

(** X20.  Closing returns a question to idle.  Selecting a question (on the
    board, with a non-empty id, not used), revealing its answer and closing
    the viewer leaves the session as it was before, with no active question
    and the answer hidden: the question is not in the used set and its
    button is still enabled. *)
Theorem select_reveal_close (st : StrState) (cat : StrCategory) (q : StrQuestion) :
  cat ∈ categories (board st) → q ∈ questions cat →
  question_id q ≠ "" → question_id q ∉ used_qids st →
  let st1 := select_question st q in
  let st2 := reveal_answer_pressed st1 in
  let st3 := close_active st2 in
  active_qid st1 = Some (question_id q) ∧ reveal_answer st1 = false ∧
  active_qid st2 = Some (question_id q) ∧ reveal_answer st2 = true ∧
  st3 = mkState (board st) (used_qids st) None false
          (scores st) (team_colors st) (upload_board_last st) ∧
  button_disabled st3 q = false.
Proof.
  intros Hcat Hq Hid Hfresh.
  destruct (find_question_on_board _ _ _ Hcat Hq) as (cat' & q' & Hfind & _).
  unfold select_question, button_disabled.
  rewrite (bool_decide_eq_false_2 _ Hfresh).
  unfold reveal_answer_pressed, close_active, active_question. simpl.
  rewrite (str_truthy_nonempty _ Hid), Hfind. simpl.
  rewrite (str_truthy_nonempty _ Hid), Hfind. simpl.
  by rewrite (bool_decide_eq_false_2 _ Hfresh).
Qed.

Lemma select_reveal_close_witness :
  let q := mkQuestion "q-2" 500 "Q2" "A2" [] 45 : StrQuestion in
  close_active (reveal_answer_pressed (select_question fresh_session q)) = fresh_session.
Proof.
  intros q.
  refine (proj1 (proj2 (proj2 (proj2 (proj2
    (select_reveal_close fresh_session history q _ _ _ _)))))).
  - simpl. apply list_elem_of_here.
  - simpl. apply list_elem_of_further, list_elem_of_here.
  - discriminate.
  - apply not_elem_of_empty.
Defined.

(** X21.  The countdown.  For a duration [timer_val ≥ 0] the placeholder
    shows [timer_val + 1] frames; frame [i] is the time [timer_val - i] as
    minutes and seconds, the seconds between 0 and 59.  For a negative
    duration the range is empty and nothing is shown. *)
Theorem countdown_frames (st : StrState) (timer_val : Z) (cat : StrCategory) (q : StrQuestion) :
  active_question st = Some (cat, q) →
  let shown := (start_timer st timer_val).2 in
  length shown = Z.to_nat (timer_val + 1) ∧
  (timer_val < 0 → shown = []) ∧
  ∀ i : nat, (i < length shown)%nat →
    ∃ mins secs, shown !! i = Some (mins, secs) ∧
      60 * mins + secs = timer_val - Z.of_nat i ∧ 0 ≤ secs < 60 ∧ 0 ≤ mins.
Proof.
  intros Hactive. unfold start_timer. rewrite Hactive. simpl.
  unfold countdown_range. rewrite !length_fmap, length_seq.
  split; [done | ]. split.
  - intros Hneg. by replace (Z.to_nat (timer_val + 1)) with 0%nat by lia.
  - intros i Hi. eexists _, _. split.
    + rewrite !list_lookup_fmap, lookup_seq_lt by done. reflexivity.
    + simpl. pose proof (Z.div_mod (timer_val - Z.of_nat i) 60 ltac:(lia)) as Hdm.
      pose proof (Z.mod_pos_bound (timer_val - Z.of_nat i) 60 ltac:(lia)) as Hb.
      split; [lia | ]. split; [lia | ].
      apply Z.div_pos; lia.
Qed.

Lemma countdown_frames_witness :
  length (start_timer played_session 90).2 = 91%nat ∧
  (start_timer played_session 90).2 !! 29%nat = Some (1, 1).
Proof.
  pose proof (countdown_frames played_session 90 history
                (mkQuestion "q-1" 100 "Q1" "A1" [] 30) eq_refl) as (Hlen & _ & _).
  split; [exact Hlen | reflexivity].
Defined.

(** ** Scoreboard: teams, totals, widget keys *)

Lemma state_eq (s1 s2 : StrState) :
  board s1 = board s2 → used_qids s1 = used_qids s2 → active_qid s1 = active_qid s2 →
  reveal_answer s1 = reveal_answer s2 → scores s1 = scores s2 →
  team_colors s1 = team_colors s2 → upload_board_last s1 = upload_board_last s2 →
  s1 = s2.
Proof. destruct s1, s2. simpl. by intros -> -> -> -> -> -> ->. Qed.

(** X22.  [scores] and [team_colors] hold the same teams.  Starting from a
    state where they do, as the initial one, adding a team, changing a score
    and removing a team keep it so; and then [remove_team] leaves the team in
    neither dict. *)
Theorem scoreboard_same_teams (st : StrState) :
  dom (scores st) = dom (team_colors st) →
  (∀ n c, dom (scores (add_team st n c)) = dom (team_colors (add_team st n c))) ∧
  (∀ t d, dom (scores (inc_score st t d)) = dom (team_colors (inc_score st t d))) ∧
  (∀ t, dom (scores (remove_team st t)) = dom (team_colors (remove_team st t))) ∧
  (∀ t, scores (remove_team st t) !! t = None ∧ team_colors (remove_team st t) !! t = None).
Proof.
  intros Hdom. split; [ | split; [ | split]].
  - intros n c. unfold add_team.
    destruct (str_truthy (strip n)); [ | done]. simpl.
    case_bool_decide as Hin; [done | ]. simpl. unfold setdefault.
    assert (scores st !! strip n = None) as Hs by (by apply not_elem_of_dom).
    assert (team_colors st !! strip n = None) as Hc
      by (apply not_elem_of_dom; by rewrite <- Hdom).
    rewrite Hs, Hc, !dom_insert_L. by rewrite Hdom.
  - intros t d. unfold inc_score. destruct (scores st !! t) as [s | ] eqn:E; [ | done].
    simpl. rewrite dom_insert_L, <- Hdom.
    apply subseteq_union_1_L, singleton_subseteq_l, elem_of_dom. eauto.
  - intros t. unfold remove_team. destruct (scores st !! t); [ | done].
    simpl. by rewrite !dom_delete_L, Hdom.
  - intros t. unfold remove_team. destruct (scores st !! t) as [s | ] eqn:E; simpl.
    + by rewrite !lookup_delete_eq.
    + split; [done | ]. apply not_elem_of_dom. rewrite <- Hdom. by apply not_elem_of_dom.
Qed.

Lemma scoreboard_same_teams_witness :
  dom (scores (add_team initial_state "Reds" "#f00"))
    = dom (team_colors (add_team initial_state "Reds" "#f00")).
Proof.
  apply (proj1 (scoreboard_same_teams initial_state eq_refl) "Reds" "#f00").
Defined.

(** X23.  Score changes add up and stay with their team.  Two changes to a
    team amount to one change by the sum, in either order, a change by 0
    changes nothing, and the totals of the other teams, and all colours, are
    as before. *)
Theorem inc_score_sums (st : StrState) (team : string) (d1 d2 : Z) :
  inc_score (inc_score st team d1) team d2 = inc_score st team (d1 + d2) ∧
  inc_score (inc_score st team d1) team d2 = inc_score (inc_score st team d2) team d1 ∧
  inc_score st team 0 = st ∧
  (∀ other, other ≠ team →
     scores (inc_score st team d1) !! other = scores st !! other) ∧
  team_colors (inc_score st team d1) = team_colors st.
Proof.
  assert (∀ a b, inc_score (inc_score st team a) team b = inc_score st team (a + b))
    as Hsum.
  { intros a b. unfold inc_score at 2 3. destruct (scores st !! team) as [s | ] eqn:E.
    - unfold inc_score. simpl. rewrite lookup_insert_eq. simpl.
      rewrite insert_insert_eq. by replace (s + a + b) with (s + (a + b)) by lia.
    - unfold inc_score. by rewrite E. }
  split; [apply Hsum | ]. split; [ | split; [ | split]].
  - rewrite !Hsum. by rewrite (Z.add_comm d1 d2).
  - unfold inc_score. destruct (scores st !! team) as [s | ] eqn:E; [ | done].
    apply state_eq; simpl; try done.
    rewrite Z.add_0_r. by apply insert_id.
  - intros other Hne. unfold inc_score. destruct (scores st !! team); [ | done].
    simpl. by rewrite lookup_insert_ne.
  - unfold inc_score. by destruct (scores st !! team).
Qed.

Lemma add_team_present (st : StrState) (team_name team_color : string) :
  is_Some (scores st !! strip team_name) → add_team st team_name team_color = st.
Proof.
  intros Hin. unfold add_team.
  rewrite (bool_decide_eq_true_2 (strip team_name ∈ dom (scores st)))
    by (by apply elem_of_dom).
  by rewrite andb_false_r.
Qed.

Lemma add_team_outcome (st : StrState) (team_name team_color : string) :
  add_team st team_name team_color = st ∨
  is_Some (scores (add_team st team_name team_color) !! strip team_name).
Proof.
  unfold add_team.
  destruct (str_truthy (strip team_name) && _) eqn:E; [ | by left].
  right. simpl. apply andb_true_iff in E as [_ E].
  apply negb_true_iff, bool_decide_eq_false_1, not_elem_of_dom in E.
  unfold setdefault. rewrite E, lookup_insert_eq. eauto.
Qed.

Lemma inc_score_sums_witness :
  let st := add_team (add_team initial_state "Reds" "#f00") "Blues" "#00f" in
  scores (inc_score (inc_score st "Reds" 100) "Reds" (-300)) !! "Reds" = Some (-200) ∧
  scores (inc_score st "Reds" 100) !! "Blues" = Some 0.
Proof.
  intros st.
  destruct (inc_score_sums st "Reds" 100 (-300)) as (Hsum & _ & _ & Hother & _).
  split.
  - rewrite Hsum. reflexivity.
  - rewrite (Hother "Blues"); [reflexivity | discriminate].
Defined.

(** X24.  "Add Team".  A name that is blank after trimming, or that is
    already a team, changes nothing, so an existing team keeps its total and
    its colour and adding twice is adding once.  A new team gets total 0 and
    the picked colour, and the other teams keep their totals and colours. *)
Theorem add_team_cases (st : StrState) (team_name team_color : string) :
  let name := strip team_name in
  (name = "" → add_team st team_name team_color = st) ∧
  (is_Some (scores st !! name) → add_team st team_name team_color = st) ∧
  add_team (add_team st team_name team_color) team_name team_color
    = add_team st team_name team_color ∧
  (name ≠ "" → scores st !! name = None → team_colors st !! name = None →
     scores (add_team st team_name team_color) = <[name := 0]> (scores st) ∧
     team_colors (add_team st team_name team_color)
       = <[name := team_color]> (team_colors st)).
Proof.
  intros name. split; [ | split; [ | split]].
  - unfold add_team. fold name. by intros ->.
  - apply add_team_present.
  - destruct (add_team_outcome st team_name team_color) as [H | Hin]; [by rewrite !H | ].
    by apply add_team_present.
  - intros Hname Hs Hc. unfold add_team. fold name.
    rewrite (str_truthy_nonempty _ Hname).
    rewrite bool_decide_eq_false_2 by (by apply not_elem_of_dom). simpl.
    unfold setdefault. by rewrite Hs, Hc.
Qed.

Lemma add_team_cases_witness :
  add_team initial_state "   " "#f00" = initial_state ∧
  scores (add_team initial_state " Reds " "#f00") = <[ "Reds" := 0 ]> ∅.
Proof.
  split.
  - apply (proj1 (add_team_cases initial_state "   " "#f00")). reflexivity.
  - apply (proj2 (proj2 (proj2 (add_team_cases initial_state " Reds " "#f00"))));
      [discriminate | reflexivity | reflexivity].
Defined.

(** [str.isalnum] on a code point below 256. *)
Definition py_isalnum (c : ascii) : bool :=
  let n := Z.of_N (N_of_ascii c) in
  ((48 <=? n) && (n <=? 57)) || ((65 <=? n) && (n <=? 90))
  || ((97 <=? n) && (n <=? 122))
  || (n =? 170) || (n =? 178) || (n =? 179) || (n =? 181) || (n =? 185)
  || (n =? 186) || ((188 <=? n) && (n <=? 190))
  || ((192 <=? n) && (n <=? 214)) || ((216 <=? n) && (n <=? 246))
  || ((248 <=? n) && (n <=? 255)).

Definition underscore : ascii := "_"%char.

(** [_safe_team_key]: every character that is not alphanumeric becomes an
    underscore. *)
Fixpoint _safe_team_key (team : string) : string :=
  match team with
  | EmptyString => EmptyString
  | String c rest =>
      String (if py_isalnum c then c else underscore) (_safe_team_key rest)
  end.

Definition key_char (c : ascii) : Prop := py_isalnum c = true ∨ c = underscore.

(** X25.  The widget key of a team.  The key has the length of the name, it
    consists of alphanumeric characters and underscores only, a name made of
    such characters is its own key, and taking the key of a key changes
    nothing.  Different names can share a key: a name that begins with an
    underscore has the key of the name that begins with a space instead. *)
Theorem safe_team_key_spec (team : string) :
  String.length (_safe_team_key team) = String.length team ∧
  Forall key_char (String.list_ascii_of_string (_safe_team_key team)) ∧
  (Forall key_char (String.list_ascii_of_string team) → _safe_team_key team = team) ∧
  _safe_team_key (_safe_team_key team) = _safe_team_key team ∧
  ∃ other : string, other ≠ String underscore team
                    ∧ _safe_team_key other = _safe_team_key (String underscore team).
Proof.
  assert (∀ s, Forall key_char (String.list_ascii_of_string (_safe_team_key s))) as Hkey.
  { induction s as [ | c s IH ]; simpl; [constructor | ].
    constructor; [ | done]. unfold key_char.
    destruct (py_isalnum c) eqn:E; [by left | by right]. }
  assert (∀ s, Forall key_char (String.list_ascii_of_string s) → _safe_team_key s = s)
    as Hfix.
  { induction s as [ | c s IH ]; simpl; [done | ].
    intros [Hc Hs]%list.Forall_cons. rewrite (IH Hs).
    destruct Hc as [-> | ->]; [done | ]. by destruct (py_isalnum underscore). }
  split; [ | split; [apply Hkey | split; [apply Hfix | split]]].
  - induction team as [ | c s IH ]; simpl; [done | by rewrite IH].
  - apply Hfix, Hkey.
  - exists (String " " team). split; [by intros [= ?] | reflexivity].
Qed.

Lemma safe_team_key_spec_witness :
  _safe_team_key "Team_42" = "Team_42" ∧ _safe_team_key "A&B!" = "A_B_".
Proof.
  split; [ | reflexivity].
  apply (proj1 (proj2 (proj2 (safe_team_key_spec "Team_42")))).
  repeat constructor; by right.
Defined.

(** ** Removing a category: what stays on the board *)

Lemma find_none_filter (qid cid : string) (cats : list StrCategory) :
  Forall (λ c, find (has_id qid) (questions c) = None) cats →
  Forall (λ c, find (has_id qid) (questions c) = None)
    (filter (λ c, category_id c ≠ cid) cats).
Proof.
  rewrite !list.Forall_forall. intros H c Hc.
  apply list_elem_of_filter in Hc as [_ Hc]. by apply H.
Qed.

(** X26.  "Remove" and the other categories.  The categories left are those
    with another id, in their order.  A question that was found in a category
    with another id is found there as before.  On a board with unique
    question ids, a question that was found in a removed category is found
    nowhere afterwards. *)
Theorem remove_category_spec (st : StrState) (cat : StrCategory) :
  let b' := board (remove_category st cat) in
  title b' = title (board st) ∧
  categories b' `sublist_of` categories (board st) ∧
  (∀ c, c ∈ categories b' ↔
        c ∈ categories (board st) ∧ category_id c ≠ category_id cat) ∧
  (∀ qid c q, find_question (board st) qid = Some (c, q) →
     category_id c ≠ category_id cat → find_question b' qid = Some (c, q)) ∧
  (NoDup (question_ids (board st)) →
   ∀ qid c q, find_question (board st) qid = Some (c, q) →
     category_id c = category_id cat → find_question b' qid = None).
Proof.
  simpl. split; [done | ]. split; [apply sublist_filter | ]. split; [ | split].
  - intros c. rewrite list_elem_of_filter. tauto.
  - intros qid c q Hfind Hc. unfold find_question in *. simpl.
    destruct (find_question_in_Some _ _ _ _ Hfind) as (before & after & -> & Hb & Hq).
    rewrite list.filter_app, list.filter_cons_True by done.
    apply find_question_in_split; [by apply find_none_filter | done].
  - intros Hnodup qid c q Hfind Hc.
    destruct (find_question_sound _ _ _ _ Hfind) as (_ & Hq & Hid).
    unfold find_question in Hfind.
    destruct (find_question_in_Some _ _ _ _ Hfind) as (before & after & Hcats & Hb & _).
    apply find_question_None. simpl. intros c' q' Hc' Hq' Hid'.
    apply list_elem_of_filter in Hc' as [Hne Hc'].
    unfold question_ids in Hnodup. rewrite Hcats in Hnodup, Hc'.
    rewrite bind_app, bind_cons in Hnodup.
    apply list.NoDup_app in Hnodup as (_ & _ & Hrest).
    apply list.NoDup_app in Hrest as (_ & Hdisj & _).
    apply elem_of_app in Hc' as [Hc' | Hc'].
    + rewrite list.Forall_forall in Hb.
      by apply (proj1 (find_has_id_None qid (questions c')) (Hb c' Hc') q').
    + apply elem_of_cons in Hc' as [-> | Hc']; [done | ].
      apply (Hdisj qid).
      * apply list_elem_of_fmap. by exists q.
      * apply list_elem_of_bind. exists c'. split; [ | done].
        apply list_elem_of_fmap. by exists q'.
Qed.

Lemma remove_category_spec_witness :
  let b' := board (remove_category played_session science) in
  find_question b' "q-2" = Some (history, mkQuestion "q-2" 500 "Q2" "A2" [] 45) ∧
  find_question (board (remove_category played_session history)) "q-2" = None.
Proof.
  split.
  - apply (proj1 (proj2 (proj2 (proj2 (remove_category_spec played_session science))))).
    + reflexivity.
    + discriminate.
  - apply (proj2 (proj2 (proj2 (proj2 (remove_category_spec played_session history))))
             played_session_unique "q-2" history (mkQuestion "q-2" 500 "Q2" "A2" [] 45)).
    + reflexivity.
    + reflexivity.
Defined.

(** ** The grid of buttons *)

(** [max((len(qs) for qs in sorted_qs), default=0)] *)
Definition grid_rows (b : StrBoard) : nat := max_list (length <$> sorted_qs b).

(** A cell of the grid: the question of the button and whether the button is
    disabled. *)
Definition cell (st : StrState) (q : StrQuestion) : StrQuestion * bool :=
  (q, button_disabled st q).

(** The grid that [render_board] draws, row by row; [None] is an empty
    cell.  Without categories only a hint is shown. *)
Definition render_grid (st : StrState) : list (list (option (StrQuestion * bool))) :=
  if bool_decide (categories (board st) = []) then []
  else
    (λ row, (λ qs, cell st <$> qs !! row) <$> sorted_qs (board st))
      <$> seq 0 (grid_rows (board st)).

Lemma omap_lookup_seq {A B} (f : A → B) (l : list A) (k n : nat) :
  omap (λ i, f <$> l !! i) (seq k n) = f <$> take n (drop k l).
Proof.
  revert k. induction n as [ | n IH ]; intros k; [done | ].
  cbn [seq omap list_omap]. rewrite IH.
  destruct (l !! k) as [x | ] eqn:E; simpl.
  - by rewrite (drop_S _ _ _ E).
  - apply lookup_ge_None in E.
    rewrite !drop_ge by lia. by rewrite !take_nil.
Qed.

(** X27.  Every question gets one button.  The grid has as many rows as the
    longest column and every row has one cell per category; the cells of a
    column, read from the top and leaving out the empty ones, are the
    questions of that category in display order, each disabled exactly when
    its id is in the used set. *)
Theorem render_grid_spec (st : StrState) :
  length (render_grid st) = grid_rows (board st) ∧
  (∀ row, row ∈ render_grid st → length row = length (categories (board st))) ∧
  (∀ col c, categories (board st) !! col = Some c →
     omap (λ row, row !! col ≫= id) (render_grid st) = cell st <$> display_column c).
Proof.
  unfold render_grid. case_bool_decide as Hempty.
  - unfold grid_rows, sorted_qs. rewrite Hempty. simpl. split; [done | ]. split.
    + by intros row ?%not_elem_of_nil.
    + intros col c. by rewrite lookup_nil.
  - split; [by rewrite length_fmap, length_seq | ]. split.
    + intros row (i & -> & _)%list_elem_of_fmap.
      unfold sorted_qs. by rewrite !length_fmap.
    + intros col c Hc.
      assert (sorted_qs (board st) !! col = Some (display_column c)) as Hcol
        by (unfold sorted_qs; by rewrite list_lookup_fmap, Hc).
      transitivity (omap (λ i, cell st <$> display_column c !! i)
                      (seq 0 (grid_rows (board st)))).
      * generalize (seq 0 (grid_rows (board st))). intros rows.
        induction rows as [ | i rows IH ]; [done | ]. rewrite fmap_cons. simpl.
        rewrite list_lookup_fmap, Hcol. simpl.
        destruct (cell st <$> display_column c !! i); [f_equal | ]; exact IH.
      * rewrite omap_lookup_seq, drop_0, take_ge; [done | ].
        unfold grid_rows. apply max_list_elem_of_le.
        apply list_elem_of_fmap. exists (display_column c). split; [done | ].
        by apply list_elem_of_lookup_2 with col.
Qed.

Lemma render_grid_spec_witness :
  omap (λ row, row !! 0%nat ≫= id) (render_grid played_session)
    = [(mkQuestion "q-2" 500 "Q2" "A2" [] 45, false);
       (mkQuestion "q-1" 100 "Q1" "A1" [] 30, true)].
Proof.
  apply (proj2 (proj2 (render_grid_spec played_session)) 0%nat history). reflexivity.
Defined.

(** ** Names are stored trimmed *)

(** No white space at either end. *)
Definition trimmed (s : string) : Prop :=
  (∀ c rest, s = String c rest → py_isspace c = false) ∧
  (∀ rest c, s = rest +:+ String c "" → py_isspace c = false).

(** X11.  Names are stored trimmed.  The category that "Add Category" puts
    on the board and the team that "Add Team" puts on the scoreboard have a
    name that is not empty and neither begins nor ends with white space,
    whatever was typed. *)
Theorem stored_names_trimmed (typed : string) :
  (∀ b uuid c, c ∈ categories (add_category b typed uuid) → c ∉ categories b →
     name c = strip typed ∧ name c ≠ "" ∧ trimmed (name c)) ∧
  (∀ st colour team, is_Some (scores (add_team st typed colour) !! team) →
     scores st !! team = None →
     team = strip typed ∧ team ≠ "" ∧ trimmed team).
Proof.
  assert (trimmed (strip typed)) as Htrim.
  { destruct (strip_spec typed) as (_ & Hhead & Hlast & _). by split. }
  split.
  - intros b uuid c. unfold add_category.
    destruct (str_truthy (strip typed)) eqn:Hname; [ | done]. simpl.
    intros [Hc | Hc]%elem_of_app Hnew; [done | ].
    apply list_elem_of_singleton in Hc as ->. simpl.
    split; [done | ]. split; [ | done].
    intros Hempty. by rewrite Hempty in Hname.
  - intros st colour team. unfold add_team.
    destruct (str_truthy (strip typed)) eqn:Hname; simpl.
    + case_bool_decide as Hin; simpl.
      * intros [s Hs] Hnone. congruence.
      * unfold setdefault. rewrite (proj1 (not_elem_of_dom _ _) Hin).
        intros Hsome Hnone.
        destruct (decide (strip typed = team)) as [<- | Hne].
        -- split; [done | ]. split; [ | done].
           intros Hempty. by rewrite Hempty in Hname.
        -- rewrite lookup_insert_ne in Hsome by done.
           destruct Hsome as [s Hs]. congruence.
    + intros [s Hs] Hnone. congruence.
Qed.

Lemma stored_names_trimmed_witness :
  name (mkCategory "c-3" "Art" [] : StrCategory) = strip "  Art " ∧
  trimmed (name (mkCategory "c-3" "Art" [] : StrCategory)).
Proof.
  destruct (proj1 (stored_names_trimmed "  Art ") sample_board "c-3"
              (mkCategory "c-3" "Art" [])) as (Hname & _ & Htrim).
  - change (add_category sample_board "  Art " "c-3")
      with (set_categories (categories sample_board ++ [mkCategory "c-3" "Art" []])
              sample_board).
    simpl. do 2 apply list_elem_of_further. apply list_elem_of_here.
  - simpl. intros H.
    apply elem_of_cons in H as [[=] | H].
    apply list_elem_of_singleton in H. discriminate.
  - split; [exact Hname | exact Htrim].
Defined.
